(** * RoleGuard Pro: the RBAC cache hook [useRBAC] and the assistant's
      action dispatcher [executeAction]

    The hook keeps three arrays (permissions, roles, role_permissions) that
    mirror three tables of a remote store.  Every mutating operation first
    awaits one call to the store and then, depending on the reply, updates
    the arrays and raises a toast.  The store and the toast sink are outside
    the repository: a call is embedded as an entry appended to the log of the
    world together with the reply the store gave, which is an argument of the
    operation. *)

From Stdlib Require Import ZArith String Ascii List Lia DecimalString.
From stdpp Require Import base list sorting strings.

Local Open Scope string_scope.
Local Open Scope list_scope.

(** ** Strings *)

(** The double quote character, for the template literals of the source. *)
Definition dquote : string := String (ascii_of_nat 34) EmptyString.

Definition quoted (s : string) : string := dquote +:+ s +:+ dquote.

(** [s.includes(sub)] *)
Fixpoint includes (s sub : string) : bool :=
  if String.prefix sub s then true
  else match s with
       | EmptyString => false
       | String _ s' => includes s' sub
       end.

(** [c.toLowerCase()] on one code unit of the ASCII range; other code units
    are kept, so that this is the lower-casing of the host on strings of
    the ASCII range only. *)
Definition lowerAscii (c : ascii) : ascii :=
  let n := nat_of_ascii c in
  if (65 <=? n)%nat && (n <=? 90)%nat then ascii_of_nat (n + 32) else c.

(** [s.toLowerCase()] *)
Fixpoint toLowerCase (s : string) : string :=
  match s with
  | EmptyString => EmptyString
  | String c s' => String (lowerAscii c) (toLowerCase s')
  end.

(** White space of the ASCII range: tab, line feed, vertical tab, form feed,
    carriage return and space. *)
Definition isSpace (c : ascii) : bool :=
  let n := nat_of_ascii c in
  ((9 <=? n)%nat && (n <=? 13)%nat) || (n =? 32)%nat.

Fixpoint trimStart (s : string) : string :=
  match s with
  | EmptyString => EmptyString
  | String c s' => if isSpace c then trimStart s' else s
  end.

Fixpoint trimEnd (s : string) : string :=
  match s with
  | EmptyString => EmptyString
  | String c s' =>
      match trimEnd s' with
      | EmptyString => if isSpace c then EmptyString else String c EmptyString
      | t => String c t
      end
  end.

(** [s.trim()] *)
Definition trim (s : string) : string := trimEnd (trimStart s).

(** A JavaScript string is falsy exactly when it is empty; an absent
    property is [undefined], falsy as well. *)
Definition truthy (s : option string) : bool :=
  match s with
  | Some (String _ _) => true
  | _ => false
  end.

(** [`${x?.name}`]: an absent value prints as [undefined]. *)
Definition show (s : option string) : string := default "undefined" s.

(** ** Rows of the three tables *)

Record Permission := mkPermission {
  p_id : string;
  p_name : string;
  p_description : option string;
  p_created_at : string
}.

Record Role := mkRole {
  r_id : string;
  r_name : string;
  r_description : option string;
  r_created_at : string
}.

Record RolePermission := mkRolePermission {
  rp_id : string;
  role_id : string;
  permission_id : string;
  rp_created_at : string
}.

(** ** The remote store, as the hook sees it *)

Record PostgrestError := mkError { message : string }.

(** The reply of one awaited query: [{ data, error }] with exactly one of
    the two set. *)
Inductive PostgrestResponse (A : Type) :=
| Success (data : A)
| Failure (error : PostgrestError).
Arguments Success {A} data.
Arguments Failure {A} error.

Definition error_of {A} (res : PostgrestResponse A) : option PostgrestError :=
  match res with
  | Success _ => None
  | Failure e => Some e
  end.

(** The queries the hook builds. *)
Inductive Request :=
| Select (table : string) (order : option string)
| Insert (table : string) (name : string) (description : option string)
| Update (table : string) (id : string) (name : string) (description : option string)
| Delete (table : string) (id : string)
| InsertLink (roleId permissionId : string)
| DeleteLink (roleId permissionId : string).

(** ** Toasts and the log of effects *)

Inductive Variant := Default | Destructive.

Record Toast := mkToast {
  title : string;
  description : string;
  variant : Variant
}.

Inductive Event :=
| Remote (q : Request)
| Toasted (t : Toast)
| ConsoleError (label : string) (e : PostgrestError).

(** ** The state of the hook *)

Record World := mkWorld {
  permissions : list Permission;
  roles : list Role;
  rolePermissions : list RolePermission;
  loading : bool;
  log : list Event
}.

(** The three local collections. *)
Definition mirror (w : World) : list Permission * list Role * list RolePermission :=
  (permissions w, roles w, rolePermissions w).

(** The queries sent to the store so far, oldest first. *)
Definition remoteCalls (w : World) : list Request :=
  omap (fun e => match e with Remote q => Some q | _ => None end) (log w).

Definition toasts (w : World) : list Toast :=
  omap (fun e => match e with Toasted t => Some t | _ => None end) (log w).

(** The state of a freshly mounted hook. *)
Definition initial : World :=
  {| permissions := []; roles := []; rolePermissions := [];
     loading := true; log := [] |}.

(** ** A state monad over the world *)

Definition M (A : Type) : Type := World -> A * World.

Global Instance M_ret : MRet M := fun A a w => (a, w).
Global Instance M_bind : MBind M :=
  fun A B f m w => let '(a, w') := m w in f a w'.
Global Instance M_fmap : FMap M :=
  fun A B f m w => let '(a, w') := m w in (f a, w').

Definition emit (e : Event) : M unit :=
  fun w => (tt, {| permissions := permissions w; roles := roles w;
                   rolePermissions := rolePermissions w;
                   loading := loading w; log := log w ++ [e] |}).

Definition setPermissions (f : list Permission -> list Permission) : M unit :=
  fun w => (tt, {| permissions := f (permissions w); roles := roles w;
                   rolePermissions := rolePermissions w;
                   loading := loading w; log := log w |}).

Definition setRoles (f : list Role -> list Role) : M unit :=
  fun w => (tt, {| permissions := permissions w; roles := f (roles w);
                   rolePermissions := rolePermissions w;
                   loading := loading w; log := log w |}).

Definition setRolePermissions (f : list RolePermission -> list RolePermission) : M unit :=
  fun w => (tt, {| permissions := permissions w; roles := roles w;
                   rolePermissions := f (rolePermissions w);
                   loading := loading w; log := log w |}).

Definition setLoading (b : bool) : M unit :=
  fun w => (tt, {| permissions := permissions w; roles := roles w;
                   rolePermissions := rolePermissions w;
                   loading := b; log := log w |}).

Definition getPermissions : M (list Permission) := fun w => (permissions w, w).
Definition getRoles : M (list Role) := fun w => (roles w, w).

Definition toast (t : Toast) : M unit := emit (Toasted t).

(** [await supabase.from(..)...]: the query goes out and the reply of the
    store comes back. *)
Definition supabase {A} (q : Request) (reply : PostgrestResponse A) : M (PostgrestResponse A) :=
  _ ← emit (Remote q); mret reply.

(** [arr.find(pred)] *)
Definition find {A} (pred : A -> bool) (l : list A) : option A := List.find pred l.

(** ** The hook *)

Section useRBAC.

(** [String.prototype.localeCompare] of the host: negative, zero or
    positive. *)
Variable localeCompare : string -> string -> Z.

(** The order [arr.sort((a, b) => a.name.localeCompare(b.name))] sorts by. *)
Definition byName {A} (name : A -> string) : relation A :=
  fun a b => (localeCompare (name a) (name b) <= 0)%Z.

Global Instance byName_dec {A} (name : A -> string) : RelDecision (byName name).
Proof. intros a b. unfold byName. apply _. Defined.

(** [Array.prototype.sort] is a stable sort: rows that compare equal keep
    the order they had.  Each row, from the last to the first, is inserted
    before the first row it does not come after. *)
Fixpoint insertByName {A} (name : A -> string) (x : A) (l : list A) : list A :=
  match l with
  | [] => [x]
  | y :: l' =>
      if decide (byName name x y) then x :: l else y :: insertByName name x l'
  end.

Definition sortByName {A} (name : A -> string) (l : list A) : list A :=
  foldr (insertByName name) [] l.

Definition createPermission (name : string) (description : option string)
    (reply : PostgrestResponse Permission) : M (option Permission) :=
  res ← supabase (Insert "permissions" name description) reply;
  match res with
  | Failure error =>
      _ ← toast {| title := "Error creating permission";
                   description := message error;
                   variant := Destructive |};
      mret None
  | Success data =>
      _ ← setPermissions (fun prev => sortByName p_name (prev ++ [data]));
      _ ← toast {| title := "Permission created";
                   description := quoted name +:+ " has been created.";
                   variant := Default |};
      mret (Some data)
  end.

Definition updatePermission (id name : string) (description : option string)
    (reply : PostgrestResponse Permission) : M (option Permission) :=
  res ← supabase (Update "permissions" id name description) reply;
  match res with
  | Failure error =>
      _ ← toast {| title := "Error updating permission";
                   description := message error;
                   variant := Destructive |};
      mret None
  | Success data =>
      _ ← setPermissions (fun prev =>
             sortByName p_name
               (map (fun p => if String.eqb (p_id p) id then data else p) prev));
      _ ← toast {| title := "Permission updated";
                   description := quoted name +:+ " has been updated.";
                   variant := Default |};
      mret (Some data)
  end.

Definition deletePermission (id : string) (reply : PostgrestResponse unit) : M bool :=
  perms ← getPermissions;
  let permission := find (fun p => String.eqb (p_id p) id) perms in
  res ← supabase (Delete "permissions" id) reply;
  match res with
  | Failure error =>
      _ ← toast {| title := "Error deleting permission";
                   description := message error;
                   variant := Destructive |};
      mret false
  | Success _ =>
      _ ← setPermissions (fun prev =>
             List.filter (fun p => negb (String.eqb (p_id p) id)) prev);
      _ ← setRolePermissions (fun prev =>
             List.filter (fun rp => negb (String.eqb (permission_id rp) id)) prev);
      _ ← toast {| title := "Permission deleted";
                   description := quoted (show (p_name <$> permission))
                                  +:+ " has been deleted.";
                   variant := Default |};
      mret true
  end.

Definition createRole (name : string) (description : option string)
    (reply : PostgrestResponse Role) : M (option Role) :=
  res ← supabase (Insert "roles" name description) reply;
  match res with
  | Failure error =>
      _ ← toast {| title := "Error creating role";
                   description := message error;
                   variant := Destructive |};
      mret None
  | Success data =>
      _ ← setRoles (fun prev => sortByName r_name (prev ++ [data]));
      _ ← toast {| title := "Role created";
                   description := quoted name +:+ " has been created.";
                   variant := Default |};
      mret (Some data)
  end.

Definition updateRole (id name : string) (description : option string)
    (reply : PostgrestResponse Role) : M (option Role) :=
  res ← supabase (Update "roles" id name description) reply;
  match res with
  | Failure error =>
      _ ← toast {| title := "Error updating role";
                   description := message error;
                   variant := Destructive |};
      mret None
  | Success data =>
      _ ← setRoles (fun prev =>
             sortByName r_name
               (map (fun r => if String.eqb (r_id r) id then data else r) prev));
      _ ← toast {| title := "Role updated";
                   description := quoted name +:+ " has been updated.";
                   variant := Default |};
      mret (Some data)
  end.

Definition deleteRole (id : string) (reply : PostgrestResponse unit) : M bool :=
  rs ← getRoles;
  let role := find (fun r => String.eqb (r_id r) id) rs in
  res ← supabase (Delete "roles" id) reply;
  match res with
  | Failure error =>
      _ ← toast {| title := "Error deleting role";
                   description := message error;
                   variant := Destructive |};
      mret false
  | Success _ =>
      _ ← setRoles (fun prev =>
             List.filter (fun r => negb (String.eqb (r_id r) id)) prev);
      _ ← setRolePermissions (fun prev =>
             List.filter (fun rp => negb (String.eqb (role_id rp) id)) prev);
      _ ← toast {| title := "Role deleted";
                   description := quoted (show (r_name <$> role))
                                  +:+ " has been deleted.";
                   variant := Default |};
      mret true
  end.

End useRBAC.

(** *** Linking roles and permissions *)

Definition assignPermissionToRole (roleId permissionId : string)
    (reply : PostgrestResponse RolePermission) : M (option RolePermission) :=
  res ← supabase (InsertLink roleId permissionId) reply;
  match res with
  | Failure error =>
      _ ← (if includes (message error) "duplicate"
           then toast {| title := "Already assigned";
                         description := "This permission is already assigned to the role.";
                         variant := Destructive |}
           else toast {| title := "Error assigning permission";
                         description := message error;
                         variant := Destructive |});
      mret None
  | Success data =>
      _ ← setRolePermissions (fun prev => (prev ++ [data]));
      rs ← getRoles;
      let role := find (fun r => String.eqb (r_id r) roleId) rs in
      perms ← getPermissions;
      let permission := find (fun p => String.eqb (p_id p) permissionId) perms in
      _ ← toast {| title := "Permission assigned";
                   description := quoted (show (p_name <$> permission))
                                  +:+ " assigned to "
                                  +:+ quoted (show (r_name <$> role)) +:+ ".";
                   variant := Default |};
      mret (Some data)
  end.

Definition removePermissionFromRole (roleId permissionId : string)
    (reply : PostgrestResponse unit) : M bool :=
  res ← supabase (DeleteLink roleId permissionId) reply;
  match res with
  | Failure error =>
      _ ← toast {| title := "Error removing permission";
                   description := message error;
                   variant := Destructive |};
      mret false
  | Success _ =>
      _ ← setRolePermissions (fun prev =>
             List.filter (fun rp => negb (String.eqb (role_id rp) roleId
                                          && String.eqb (permission_id rp) permissionId))
                         prev);
      rs ← getRoles;
      let role := find (fun r => String.eqb (r_id r) roleId) rs in
      perms ← getPermissions;
      let permission := find (fun p => String.eqb (p_id p) permissionId) perms in
      _ ← toast {| title := "Permission removed";
                   description := quoted (show (p_name <$> permission))
                                  +:+ " removed from "
                                  +:+ quoted (show (r_name <$> role)) +:+ ".";
                   variant := Default |};
      mret true
  end.

(** *** Derived queries: functions of the current arrays *)

(** [ids.includes(x)] on an array of strings *)
Definition includesId (ids : list string) (x : string) : bool :=
  existsb (String.eqb x) ids.

Definition getPermissionsForRole (w : World) (roleId : string) : list Permission :=
  let permissionIds :=
    map permission_id
        (List.filter (fun rp => String.eqb (role_id rp) roleId) (rolePermissions w)) in
  List.filter (fun p => includesId permissionIds (p_id p)) (permissions w).

Definition getRolesForPermission (w : World) (permissionId : string) : list Role :=
  let roleIds :=
    map role_id
        (List.filter (fun rp => String.eqb (permission_id rp) permissionId)
                     (rolePermissions w)) in
  List.filter (fun r => includesId roleIds (r_id r)) (roles w).

(** *** Refresh *)

(** The signed-in user of the auth context; only its presence matters. *)
Record User := mkUser { user_id : string }.

(** The body of the [try] block: [Some e] when [e] is thrown. *)
Definition fetchData_try
    (permRes : PostgrestResponse (option (list Permission)))
    (roleRes : PostgrestResponse (option (list Role)))
    (rpRes : PostgrestResponse (option (list RolePermission)))
  : M (option PostgrestError) :=
  _ ← setLoading true;
  permRes ← supabase (Select "permissions" (Some "name")) permRes;
  roleRes ← supabase (Select "roles" (Some "name")) roleRes;
  rpRes ← supabase (Select "role_permissions" None) rpRes;
  match permRes, roleRes, rpRes with
  | Failure error, _, _ => mret (Some error)
  | _, Failure error, _ => mret (Some error)
  | _, _, Failure error => mret (Some error)
  | Success permData, Success roleData, Success rpData =>
      _ ← setPermissions (fun _ => default [] permData);
      _ ← setRoles (fun _ => default [] roleData);
      _ ← setRolePermissions (fun _ => default [] rpData);
      mret None
  end.

Definition fetchData (user : option User)
    (permRes : PostgrestResponse (option (list Permission)))
    (roleRes : PostgrestResponse (option (list Role)))
    (rpRes : PostgrestResponse (option (list RolePermission)))
  : M unit :=
  match user with
  | None => mret tt
  | Some _ =>
      thrown ← fetchData_try permRes roleRes rpRes;
      _ ← match thrown with
          | Some error =>
              _ ← emit (ConsoleError "Error fetching RBAC data:" error);
              toast {| title := "Error loading data";
                       description := "Could not load roles and permissions. Please try again.";
                       variant := Destructive |}
          | None => mret tt
          end;
      setLoading false
  end.

(** ** The assistant page: dispatching an action of the language model *)

Record AIData := mkAIData {
  d_name : option string;
  d_description : option string;
  d_role_name : option string;
  d_permission_name : option string
}.

Record AIResponse := mkAIResponse {
  action : string;
  data : option AIData;
  ai_message : string;
  ai_error : option string
}.

(** [{ success, message }] *)
Record ActionResult := mkResult {
  success : bool;
  result_message : string
}.

(** What the store answers to the one query an action can lead to. *)
Record StoreReplies := mkReplies {
  permissionInserted : PostgrestResponse Permission;
  roleInserted : PostgrestResponse Role;
  linkInserted : PostgrestResponse RolePermission;
  linkDeleted : PostgrestResponse unit
}.

(** The value of [x] where [!x] is false: a present, non-empty string. *)
Definition present (s : option string) : option string :=
  match s with
  | Some (String _ _ as x) => Some x
  | _ => None
  end.

Section AIAssistant.

Variable localeCompare : string -> string -> Z.

(** [String.prototype.toLowerCase] of the host, which folds the letters of
    every script. *)
Variable toLowerCase : string -> string.

Definition executeAction (response : AIResponse) (store : StoreReplies) : M ActionResult :=
  let data := data response in
  if String.eqb (action response) "create_permission" then
    match present (data ≫= d_name) with
    | None => mret {| success := false; result_message := "Permission name is required" |}
    | Some name =>
        result ← createPermission localeCompare name (data ≫= d_description)
                   (permissionInserted store);
        mret (match result with
              | Some _ => {| success := true;
                             result_message := "Permission " +:+ quoted name
                                               +:+ " created successfully!" |}
              | None => {| success := false;
                           result_message := "Failed to create permission. It may already exist." |}
              end)
    end
  else if String.eqb (action response) "create_role" then
    match present (data ≫= d_name) with
    | None => mret {| success := false; result_message := "Role name is required" |}
    | Some name =>
        result ← createRole localeCompare name (data ≫= d_description)
                   (roleInserted store);
        mret (match result with
              | Some _ => {| success := true;
                             result_message := "Role " +:+ quoted name
                                               +:+ " created successfully!" |}
              | None => {| success := false;
                           result_message := "Failed to create role. It may already exist." |}
              end)
    end
  else if String.eqb (action response) "assign_permission" then
    match present (data ≫= d_role_name), present (data ≫= d_permission_name) with
    | Some role_name, Some permission_name =>
        rs ← getRoles;
        perms ← getPermissions;
        let role :=
          find (fun r => String.eqb (toLowerCase (r_name r)) (toLowerCase role_name)) rs in
        let permission :=
          find (fun p => String.eqb (toLowerCase (p_name p)) (toLowerCase permission_name))
               perms in
        match role, permission with
        | None, _ =>
            mret {| success := false;
                    result_message := "Role " +:+ quoted role_name +:+ " not found" |}
        | Some _, None =>
            mret {| success := false;
                    result_message := "Permission " +:+ quoted permission_name
                                      +:+ " not found" |}
        | Some role, Some permission =>
            result ← assignPermissionToRole (r_id role) (p_id permission)
                       (linkInserted store);
            mret (match result with
                  | Some _ =>
                      {| success := true;
                         result_message := "Permission " +:+ quoted (p_name permission)
                                           +:+ " assigned to " +:+ quoted (r_name role)
                                           +:+ " successfully!" |}
                  | None =>
                      {| success := false;
                         result_message :=
                           "Failed to assign permission. It may already be assigned." |}
                  end)
        end
    | _, _ =>
        mret {| success := false;
                result_message := "Both role name and permission name are required" |}
    end
  else if String.eqb (action response) "remove_permission" then
    match present (data ≫= d_role_name), present (data ≫= d_permission_name) with
    | Some role_name, Some permission_name =>
        rs ← getRoles;
        perms ← getPermissions;
        let role :=
          find (fun r => String.eqb (toLowerCase (r_name r)) (toLowerCase role_name)) rs in
        let permission :=
          find (fun p => String.eqb (toLowerCase (p_name p)) (toLowerCase permission_name))
               perms in
        match role, permission with
        | None, _ =>
            mret {| success := false;
                    result_message := "Role " +:+ quoted role_name +:+ " not found" |}
        | Some _, None =>
            mret {| success := false;
                    result_message := "Permission " +:+ quoted permission_name
                                      +:+ " not found" |}
        | Some role, Some permission =>
            result ← removePermissionFromRole (r_id role) (p_id permission)
                       (linkDeleted store);
            mret (if result : bool
                  then {| success := true;
                          result_message := "Permission " +:+ quoted (p_name permission)
                                            +:+ " removed from " +:+ quoted (r_name role)
                                            +:+ " successfully!" |}
                  else {| success := false; result_message := "Failed to remove permission." |})
        end
    | _, _ =>
        mret {| success := false;
                result_message := "Both role name and permission name are required" |}
    end
  else if String.eqb (action response) "info" then
    mret {| success := true; result_message := ai_message response |}
  else
    mret {| success := true; result_message := ai_message response |}.

End AIAssistant.

(** ** The permissions page: submitting the form *)

Record FormData := mkFormData {
  f_name : string;
  f_description : string
}.

Section Permissions.

Variable localeCompare : string -> string -> Z.

(** The flags [submitting] and [formOpen] of the page are not part of the
    hook and are left out. *)
Definition handleSubmit (formData : FormData) (selectedPermission : option Permission)
    (reply : PostgrestResponse Permission) : M unit :=
  if negb (truthy (Some (trim (f_name formData)))) then mret tt
  else
    match selectedPermission with
    | Some selected =>
        _ ← updatePermission localeCompare (p_id selected) (trim (f_name formData))
              (present (Some (trim (f_description formData)))) reply;
        mret tt
    | None =>
        _ ← createPermission localeCompare (trim (f_name formData))
              (present (Some (trim (f_description formData)))) reply;
        mret tt
    end.

End Permissions.

(** ** Calls of the mutating operations, for reasoning about sequences *)

Inductive Call :=
| CreatePermission (name : string) (description : option string)
    (reply : PostgrestResponse Permission)
| UpdatePermission (id name : string) (description : option string)
    (reply : PostgrestResponse Permission)
| DeletePermission (id : string) (reply : PostgrestResponse unit)
| CreateRole (name : string) (description : option string)
    (reply : PostgrestResponse Role)
| UpdateRole (id name : string) (description : option string)
    (reply : PostgrestResponse Role)
| DeleteRole (id : string) (reply : PostgrestResponse unit)
| AssignPermissionToRole (roleId permissionId : string)
    (reply : PostgrestResponse RolePermission)
| RemovePermissionFromRole (roleId permissionId : string)
    (reply : PostgrestResponse unit).

(** What a call hands back to its caller. *)
Inductive Returned :=
| RetPermission (r : option Permission)
| RetRole (r : option Role)
| RetLink (r : option RolePermission)
| RetBool (r : bool).

(** [null] and [false] are the failure indicators of the hook. *)
Definition isFailure (r : Returned) : bool :=
  match r with
  | RetPermission None | RetRole None | RetLink None | RetBool false => true
  | _ => false
  end.

(** [if (error)]: the store answered with an error. *)
Definition failed {A} (res : PostgrestResponse A) : bool :=
  match error_of res with
  | Some _ => true
  | None => false
  end.

(** Whether the store answered the call with an error. *)
Definition remoteFailed (c : Call) : bool :=
  match c with
  | CreatePermission _ _ reply | UpdatePermission _ _ _ reply => failed reply
  | CreateRole _ _ reply | UpdateRole _ _ _ reply => failed reply
  | DeletePermission _ reply | DeleteRole _ reply => failed reply
  | AssignPermissionToRole _ _ reply => failed reply
  | RemovePermissionFromRole _ _ reply => failed reply
  end.

Section Calls.

Variable localeCompare : string -> string -> Z.

Definition perform (c : Call) : M Returned :=
  match c with
  | CreatePermission name description reply =>
      RetPermission <$> createPermission localeCompare name description reply
  | UpdatePermission id name description reply =>
      RetPermission <$> updatePermission localeCompare id name description reply
  | DeletePermission id reply => RetBool <$> deletePermission id reply
  | CreateRole name description reply =>
      RetRole <$> createRole localeCompare name description reply
  | UpdateRole id name description reply =>
      RetRole <$> updateRole localeCompare id name description reply
  | DeleteRole id reply => RetBool <$> deleteRole id reply
  | AssignPermissionToRole roleId permissionId reply =>
      RetLink <$> assignPermissionToRole roleId permissionId reply
  | RemovePermissionFromRole roleId permissionId reply =>
      RetBool <$> removePermissionFromRole roleId permissionId reply
  end.

(** The world after a sequence of calls, each awaited before the next. *)
Definition performAll (cs : list Call) (w : World) : World :=
  foldl (fun w c => snd (perform c w)) w cs.

End Calls.

(** ** Notions of the specification *)

(** The three collections of the mirror. *)
Definition Mirror : Type := list Permission * list Role * list RolePermission.

(** The local reconciliation of an accepted call, in the words of the
    specification: a create inserts the returned record, an update replaces
    the entry with the given id, a delete removes the entry and every link
    that refers to it, an assignment is appended, a removal drops the links
    of the pair.  Order is left to [sortedMirror].  Nothing is the
    reconciliation of a refused call. *)
Definition reconciled (c : Call) (before after : Mirror) : Prop :=
  let '(ps, rs, rps) := before in
  let '(ps', rs', rps') := after in
  match c with
  | CreatePermission _ _ (Success d) =>
      ps' ≡ₚ ps ++ [d] ∧ rs' = rs ∧ rps' = rps
  | UpdatePermission id _ _ (Success d) =>
      ps' ≡ₚ (fun p => if decide (p_id p = id) then d else p) <$> ps
      ∧ rs' = rs ∧ rps' = rps
  | DeletePermission id (Success _) =>
      ps' = filter (fun p => p_id p ≠ id) ps ∧ rs' = rs
      ∧ rps' = filter (fun rp => permission_id rp ≠ id) rps
  | CreateRole _ _ (Success d) =>
      ps' = ps ∧ rs' ≡ₚ rs ++ [d] ∧ rps' = rps
  | UpdateRole id _ _ (Success d) =>
      ps' = ps
      ∧ rs' ≡ₚ (fun r => if decide (r_id r = id) then d else r) <$> rs
      ∧ rps' = rps
  | DeleteRole id (Success _) =>
      ps' = ps ∧ rs' = filter (fun r => r_id r ≠ id) rs
      ∧ rps' = filter (fun rp => role_id rp ≠ id) rps
  | AssignPermissionToRole _ _ (Success d) =>
      ps' = ps ∧ rs' = rs ∧ rps' = rps ++ [d]
  | RemovePermissionFromRole roleId permissionId (Success _) =>
      ps' = ps ∧ rs' = rs
      ∧ rps' = filter (fun rp => ¬ (role_id rp = roleId ∧ permission_id rp = permissionId))
                      rps
  | _ => False
  end.

(** A link of the role to the permission, by the ids it carries in the mirror. *)
Definition grants (rps : list RolePermission) (roleId : string) (p : Permission) : Prop :=
  Exists (fun rp => role_id rp = roleId ∧ permission_id rp = p_id p) rps.

Definition grantedTo (rps : list RolePermission) (permissionId : string) (r : Role) : Prop :=
  Exists (fun rp => permission_id rp = permissionId ∧ role_id rp = r_id r) rps.

Global Instance grants_dec rps roleId p : Decision (grants rps roleId p).
Proof. unfold grants. apply _. Defined.

Global Instance grantedTo_dec rps permissionId r : Decision (grantedTo rps permissionId r).
Proof. unfold grantedTo. apply _. Defined.

(** Permissions and roles are each in the order of their names. *)
Definition sortedMirror (localeCompare : string -> string -> Z) (w : World) : Prop :=
  StronglySorted (byName localeCompare p_name) (permissions w)
  ∧ StronglySorted (byName localeCompare r_name) (roles w).

(** What the sort relies on: the comparator of the host is a consistent
    comparison, total and transitive. *)
Definition consistentComparator (localeCompare : string -> string -> Z) : Prop :=
  (∀ a b, (localeCompare a b <= 0)%Z ∨ (localeCompare b a <= 0)%Z)
  ∧ (∀ a b c, (localeCompare a b <= 0)%Z -> (localeCompare b c <= 0)%Z ->
              (localeCompare a c <= 0)%Z).

(** One consistent comparator: comparison of the code units, left to right. *)
Definition codeUnitCompare (a b : string) : Z :=
  match String.compare a b with
  | Lt => -1
  | Eq => 0
  | Gt => 1
  end.

(** A name that is empty or made of white space only. *)
Definition blank (s : string) : Prop :=
  Forall (fun c => isSpace c = true) (list_ascii_of_string s).

(** The links of one pair. *)
Definition linksOf (roleId permissionId : string) (rps : list RolePermission) :
    list RolePermission :=
  filter (fun rp => role_id rp = roleId ∧ permission_id rp = permissionId) rps.

(** The toasts of a failed refresh and of a refused assignment. *)
Definition loadErrorToast : Toast :=
  {| title := "Error loading data";
     description := "Could not load roles and permissions. Please try again.";
     variant := Destructive |}.

Definition alreadyAssignedToast : Toast :=
  {| title := "Already assigned";
     description := "This permission is already assigned to the role.";
     variant := Destructive |}.

Definition assignErrorToast (error : PostgrestError) : Toast :=
  {| title := "Error assigning permission";
     description := message error;
     variant := Destructive |}.

(** The three reads of a refresh. *)
Definition refreshQueries : list Request :=
  [Select "permissions" (Some "name"); Select "roles" (Some "name");
   Select "role_permissions" None].

(** The names an action resolves, when both are present and not empty. *)
Definition namesOf (response : AIResponse) : option (string * string) :=
  match present (data response ≫= d_role_name),
        present (data response ≫= d_permission_name) with
  | Some role_name, Some permission_name => Some (role_name, permission_name)
  | _, _ => None
  end.

(** The query sent once both names are resolved. *)
Definition linkQuery (act roleId permissionId : string) : Request :=
  if String.eqb act "assign_permission"
  then InsertLink roleId permissionId
  else DeleteLink roleId permissionId.

(** ** Sample rows, replies and states *)

Definition canDelete : Permission :=
  {| p_id := "p1"; p_name := "can_delete"; p_description := None;
     p_created_at := "2024-01-01T00:00:00Z" |}.

Definition canPublish : Permission :=
  {| p_id := "p2"; p_name := "Can_publish"; p_description := Some "publish content";
     p_created_at := "2024-01-02T00:00:00Z" |}.

Definition blankPermission : Permission :=
  {| p_id := "p3"; p_name := "  "; p_description := None;
     p_created_at := "2024-01-03T00:00:00Z" |}.

Definition editor : Role :=
  {| r_id := "r1"; r_name := "Content Editor"; r_description := None;
     r_created_at := "2024-01-01T00:00:00Z" |}.

Definition admin : Role :=
  {| r_id := "r2"; r_name := "Admin"; r_description := None;
     r_created_at := "2024-01-02T00:00:00Z" |}.

Definition editorCanDelete : RolePermission :=
  {| rp_id := "l1"; role_id := "r1"; permission_id := "p1";
     rp_created_at := "2024-01-04T00:00:00Z" |}.

Definition duplicateKey : PostgrestError :=
  {| message := "duplicate key value violates unique constraint" |}.

Definition fetchFailed : PostgrestError := {| message := "Failed to fetch" |}.

Definition someUser : User := {| user_id := "u1" |}.

(** A mirror with two permissions, two roles and one link. *)
Definition populated : World :=
  {| permissions := [canDelete; canPublish]; roles := [admin; editor];
     rolePermissions := [editorCanDelete]; loading := false; log := [] |}.

(** A store that refuses every query. *)
Definition refusing : StoreReplies :=
  {| permissionInserted := Failure fetchFailed; roleInserted := Failure fetchFailed;
     linkInserted := Failure fetchFailed; linkDeleted := Failure fetchFailed |}.

Definition assignViewer : AIResponse :=
  {| action := "assign_permission";
     data := Some {| d_name := None; d_description := None;
                     d_role_name := Some "Viewer";
                     d_permission_name := Some "can_delete" |};
     ai_message := "Assigning can_delete to Viewer"; ai_error := None |}.

Definition assignViewerNothing : AIResponse :=
  {| action := "assign_permission";
     data := Some {| d_name := None; d_description := None;
                     d_role_name := Some "Viewer";
                     d_permission_name := Some EmptyString |};
     ai_message := "Assigning to Viewer"; ai_error := None |}.

Definition deleteRoleAction : AIResponse :=
  {| action := "delete_role"; data := None;
     ai_message := "Deleting roles is not supported"; ai_error := None |}.

(** The scenario of the specification: one role, one permission, one link. *)
Definition marketingManager : Role :=
  {| r_id := "r9"; r_name := "Marketing Manager"; r_description := None;
     r_created_at := "2024-02-01T00:00:00Z" |}.

Definition canPublishContent : Permission :=
  {| p_id := "p9"; p_name := "can_publish_content"; p_description := None;
     p_created_at := "2024-02-01T00:00:01Z" |}.

Definition managerCanPublish : RolePermission :=
  {| rp_id := "l9"; role_id := "r9"; permission_id := "p9";
     rp_created_at := "2024-02-01T00:00:02Z" |}.

Definition afterScenario : World :=
  performAll codeUnitCompare
    [CreateRole "Marketing Manager" None (Success marketingManager);
     CreatePermission "can_publish_content" None (Success canPublishContent);
     AssignPermissionToRole "r9" "p9" (Success managerCanPublish)]
    initial.

(** ** The pages around the hook *)

(** The current state, as a component reads it when it renders. *)
Definition getWorld : M World := fun w => (w, w).

(** *** The permissions page: search *)

(** [x.toLowerCase().includes(search.toLowerCase())] *)
Definition matches (search haystack : string) : bool :=
  includes (toLowerCase haystack) (toLowerCase search).

(** [d?.toLowerCase().includes(..)] on a nullable column: [undefined],
    falsy, when the column is null. *)
Definition matchesOptional (search : string) (haystack : option string) : bool :=
  match haystack with
  | Some d => matches search d
  | None => false
  end.

Definition filteredPermissions (search : string) (perms : list Permission) :
    list Permission :=
  List.filter (fun p => matches search (p_name p)
                        || matchesOptional search (p_description p)) perms.

(** *** The roles page *)

Module RolesPage.

Definition filteredRoles (search : string) (rs : list Role) : list Role :=
  List.filter (fun r => matches search (r_name r)
                        || matchesOptional search (r_description r)) rs.

Section WithComparator.

Variable localeCompare : string -> string -> Z.

Definition handleSubmit (formData : FormData) (selectedRole : option Role)
    (reply : PostgrestResponse Role) : M unit :=
  if negb (truthy (Some (trim (f_name formData)))) then mret tt
  else
    match selectedRole with
    | Some selected =>
        _ ← updateRole localeCompare (r_id selected) (trim (f_name formData))
              (present (Some (trim (f_description formData)))) reply;
        mret tt
    | None =>
        _ ← createRole localeCompare (trim (f_name formData))
              (present (Some (trim (f_description formData)))) reply;
        mret tt
    end.

End WithComparator.

End RolesPage.

(** *** The assignments page *)

Module AssignmentsPage.

Definition filteredRoles (roleSearch : string) (rs : list Role) : list Role :=
  List.filter (fun r => matches roleSearch (r_name r)) rs.

Definition filteredPermissions (permSearch : string) (perms : list Permission) :
    list Permission :=
  List.filter (fun p => matches permSearch (p_name p)) perms.

(** [processing] holds the id being toggled, or null; the flag is set and
    reset around the call and is not part of the hook. *)
Definition handleTogglePermission (selectedRole : option Role)
    (processing : option string) (permissionId : string)
    (store : StoreReplies) : M unit :=
  match selectedRole with
  | None => mret tt
  | Some selected =>
      if truthy processing then mret tt
      else
        w ← getWorld;
        let rolePermissionIds := map p_id (getPermissionsForRole w (r_id selected)) in
        if includesId rolePermissionIds permissionId
        then _ ← removePermissionFromRole (r_id selected) permissionId (linkDeleted store);
             mret tt
        else _ ← assignPermissionToRole (r_id selected) permissionId (linkInserted store);
             mret tt
  end.

End AssignmentsPage.

(** *** The assistant page: sending a command *)

Module AssistantPage.

Inductive Author := user | assistant.

Record Message := mkMessage {
  m_id : string;
  m_role : Author;
  m_content : string;
  m_action : option string;
  m_success : option bool;
  m_timestamp : string
}.

(** One reading of the clock: [Date.now().toString()] and [new Date()]. *)
Record Instant := mkInstant {
  now : string;
  date : string
}.

(** The state of the page, with the bodies sent to the function [rbac-ai]
    so far, oldest first. *)
Record Chat := mkChat {
  messages : list Message;
  input : string;
  processing : bool;
  invoked : list string
}.

Definition apology : string :=
  "Sorry, I encountered an error processing your request. Please try again.".

Section Send.

Variable localeCompare : string -> string -> Z.
Variable toLowerCase : string -> string.

(** [invoke] is the reply of [supabase.functions.invoke]; [sent] and
    [answered] are the clock when the two messages are built. *)
Definition handleSend (invoke : PostgrestResponse AIResponse) (store : StoreReplies)
    (sent answered : Instant) (chat : Chat) : M Chat :=
  if negb (truthy (Some (trim (input chat)))) || processing chat then mret chat
  else
    let userMessage :=
      {| m_id := now sent; m_role := user; m_content := trim (input chat);
         m_action := None; m_success := None; m_timestamp := date sent |} in
    let asked := messages chat ++ [userMessage] in
    let called := invoked chat ++ [trim (input chat)] in
    let answer (content : string) (act : option string) (ok : bool) : Chat :=
      {| messages := asked ++ [{| m_id := now answered; m_role := assistant;
                                  m_content := content; m_action := act;
                                  m_success := Some ok;
                                  m_timestamp := date answered |}];
         input := EmptyString; processing := false; invoked := called |} in
    match invoke with
    | Failure error =>
        _ ← emit (ConsoleError "AI error:" error);
        _ ← toast {| title := "AI Error";
                     description := "Failed to process your request. Please try again.";
                     variant := Destructive |};
        mret (answer apology None false)
    | Success aiResponse =>
        match present (ai_error aiResponse) with
        | Some err => mret (answer err None false)
        | None =>
            result ← executeAction localeCompare toLowerCase aiResponse store;
            mret (answer (result_message result) (Some (action aiResponse))
                         (success result))
        end
    end.

End Send.

End AssistantPage.

(** ** The edge function [rbac-ai] *)

Module RbacAi.

Definition corsHeaders : list (string * string) :=
  [("Access-Control-Allow-Origin", "*");
   ("Access-Control-Allow-Headers",
    "authorization, x-client-info, apikey, content-type")].

Definition jsonHeaders : list (string * string) :=
  corsHeaders ++ [("Content-Type", "application/json")].

(** The match of the regular expression [/\{[\s\S]*\}/]: it starts at the
    first opening brace and, the star being greedy, ends at the last closing
    brace after it. *)
Fixpoint fromFirstBrace (s : string) : option string :=
  match s with
  | EmptyString => None
  | String c s' => if Ascii.eqb c "{" then Some s else fromFirstBrace s'
  end.

Fixpoint upToLastBrace (s : string) : option string :=
  match s with
  | EmptyString => None
  | String c s' =>
      match upToLastBrace s' with
      | Some t => Some (String c t)
      | None => if Ascii.eqb c "}" then Some (String c EmptyString) else None
      end
  end.

Definition jsonMatch (content : string) : option string :=
  fromFirstBrace content ≫= upToLastBrace.

(** What an awaited call can throw: an [Error] with its message, or any
    other value. *)
Inductive Exception :=
| ErrorObject (msg : string)
| OtherValue.

Inductive Try (A : Type) :=
| Returned (a : A)
| Thrown (e : Exception).
Arguments Returned {A} a.
Arguments Thrown {A} e.

(** [error instanceof Error ? error.message : ..] *)
Definition errorMessage (e : Exception) : string :=
  match e with
  | ErrorObject msg => msg
  | OtherValue => "Unknown error occurred"
  end.

(** The answer of the gateway: its status, what [await response.text()]
    gives on an error answer, and [choices?.[0]?.message?.content] of what
    [await response.json()] gives. *)
Record Gateway := mkGateway {
  status : nat;
  text : Try string;
  content : Try (option string)
}.

(** [response.ok] *)
Definition ok (g : Gateway) : bool := (200 <=? status g)%nat && (status g <=? 299)%nat.

(** The request sent to the gateway. *)
Record Fetch := mkFetch {
  authorization : string;
  userContent : string
}.

Section Serve.

(** The values of JSON, and [JSON.parse], which throws on a text that is
    not JSON. *)
Variable Json : Type.
Variable jsonParse : string -> option Json.

(** The body handed to [JSON.stringify]. *)
Inductive Body :=
| NoBody
| ErrorOnly (error : string)
| ErrorAction (error : string)
| Parsed (value : Json)
| Info (msg : option string).

Record HttpResponse := mkResponse {
  code : nat;
  headers : list (string * string);
  body : Body
}.

(** The outer [catch]. *)
Definition failure (e : Exception) : HttpResponse :=
  {| code := 500; headers := jsonHeaders; body := ErrorAction (errorMessage e) |}.

(** The inner [try]: the text of the model parsed, or passed on as [info]. *)
Definition parsedResponse (content : option string) : Body :=
  match content with
  | None => Info None
  | Some c =>
      match jsonMatch c with
      | Some j =>
          match jsonParse j with
          | Some v => Parsed v
          | None => Info (Some c)
          end
      | None => Info (Some c)
      end
  end.

(** The handler: the requests it sends to the gateway and its response.
    [reqJson] is the [message] of the decoded request, [apiKey] the
    environment variable, [fetched] what the gateway answers. *)
Definition serve (method : string) (reqJson : Try string) (apiKey : option string)
    (fetched : Try Gateway) : list Fetch * HttpResponse :=
  if String.eqb method "OPTIONS"
  then ([], {| code := 200; headers := corsHeaders; body := NoBody |})
  else
    match reqJson with
    | Thrown e => ([], failure e)
    | Returned msg =>
        match present apiKey with
        | None => ([], failure (ErrorObject "LOVABLE_API_KEY is not configured"))
        | Some key =>
            let call := {| authorization := "Bearer " +:+ key; userContent := msg |} in
            match fetched with
            | Thrown e => ([call], failure e)
            | Returned response =>
                if negb (ok response) then
                  match text response with
                  | Thrown e => ([call], failure e)
                  | Returned errorText =>
                      if (status response =? 429)%nat then
                        ([call],
                         {| code := 429; headers := jsonHeaders;
                            body := ErrorOnly
                                      "Rate limit exceeded. Please try again in a moment." |})
                      else if (status response =? 402)%nat then
                        ([call],
                         {| code := 402; headers := jsonHeaders;
                            body := ErrorOnly
                                      "AI credits exhausted. Please add credits to continue." |})
                      else
                        ([call],
                         failure (ErrorObject
                                    ("AI gateway error: "
                                     +:+ NilZero.string_of_uint
                                           (Nat.to_uint (status response)))))
                  end
                else
                  match content response with
                  | Thrown e => ([call], failure e)
                  | Returned c =>
                      ([call],
                       {| code := 200; headers := jsonHeaders;
                          body := parsedResponse c |})
                  end
            end
        end
    end.

End Serve.

Arguments NoBody {Json}.
Arguments ErrorOnly {Json} error.
Arguments ErrorAction {Json} error.
Arguments Parsed {Json} value.
Arguments Info {Json} msg.
Arguments mkResponse {Json} code headers body.
Arguments code {Json} h.
Arguments headers {Json} h.
Arguments body {Json} h.
Arguments failure {Json} e.

End RbacAi.

(** A character occurs in a string. *)
Definition occurs (c : ascii) (s : string) : Prop := In c (list_ascii_of_string s).

(** ** Notions used to state what the operations keep *)

(** The one query a call sends. *)
Definition queryOf (c : Call) : Request :=
  match c with
  | CreatePermission name description _ => Insert "permissions" name description
  | UpdatePermission id name description _ => Update "permissions" id name description
  | DeletePermission id _ => Delete "permissions" id
  | CreateRole name description _ => Insert "roles" name description
  | UpdateRole id name description _ => Update "roles" id name description
  | DeleteRole id _ => Delete "roles" id
  | AssignPermissionToRole roleId permissionId _ => InsertLink roleId permissionId
  | RemovePermissionFromRole roleId permissionId _ => DeleteLink roleId permissionId
  end.

(** Every link refers to a role and to a permission of the mirror. *)
Definition integrity (w : World) : Prop :=
  ∀ rp, rp ∈ rolePermissions w ->
        role_id rp ∈ r_id <$> roles w ∧ permission_id rp ∈ p_id <$> permissions w.

(** The row an accepted call gets back is the row the call was about: an
    update returns a row with the id it updated, an insert of a link returns
    a link of the two ids, which are ids of the mirror. *)
Definition echoes (c : Call) (w : World) : Prop :=
  match c with
  | UpdatePermission id _ _ (Success d) => p_id d = id
  | UpdateRole id _ _ (Success d) => r_id d = id
  | AssignPermissionToRole roleId permissionId (Success d) =>
      role_id d = roleId ∧ permission_id d = permissionId
      ∧ roleId ∈ r_id <$> roles w ∧ permissionId ∈ p_id <$> permissions w
  | _ => True
  end.


(** A comparator of the kind hosts provide for [localeCompare], letters
    before case: names are compared without regard to the case of the
    letters A to Z first, and names that differ in case only are told apart
    with the lower-case letter first. *)
Definition collate (a b : string) : Z :=
  match String.compare (toLowerCase a) (toLowerCase b) with
  | Lt => -1
  | Gt => 1
  | Eq => codeUnitCompare b a
  end.

(** Strings of the ASCII range: every code unit is below 128.  On these the
    white space of the host is the white space of [isSpace], so that [trim]
    above is the [trim] of the host. *)
Definition isAscii (s : string) : Prop :=
  Forall (fun c => (N_of_ascii c < 128)%N) (list_ascii_of_string s).

(** ** More sample rows, replies and states *)

Definition adminCanDelete : RolePermission :=
  {| rp_id := "l2"; role_id := "r2"; permission_id := "p1";
     rp_created_at := "2024-01-05T00:00:00Z" |}.

Definition editorCanDeleteAgain : RolePermission :=
  {| rp_id := "l3"; role_id := "r1"; permission_id := "p1";
     rp_created_at := "2024-01-06T00:00:00Z" |}.

Definition canView : Permission :=
  {| p_id := "p4"; p_name := "can_view"; p_description := None;
     p_created_at := "2024-01-07T00:00:00Z" |}.

Definition viewer : Role :=
  {| r_id := "r3"; r_name := "Viewer"; r_description := None;
     r_created_at := "2024-01-07T00:00:01Z" |}.

(** A store that accepts every query. *)
Definition accepting : StoreReplies :=
  {| permissionInserted := Success canView; roleInserted := Success viewer;
     linkInserted := Success adminCanDelete; linkDeleted := Success () |}.

Definition createCanView : AIResponse :=
  {| action := "create_permission";
     data := Some {| d_name := Some "can_view"; d_description := None;
                     d_role_name := None; d_permission_name := None |};
     ai_message := "Creating can_view"; ai_error := None |}.

Definition assignAdmin : AIResponse :=
  {| action := "assign_permission";
     data := Some {| d_name := None; d_description := None;
                     d_role_name := Some "admin";
                     d_permission_name := Some "can_delete" |};
     ai_message := "Assigning can_delete to admin"; ai_error := None |}.

Definition assignAdminShouting : AIResponse :=
  {| action := "assign_permission";
     data := Some {| d_name := None; d_description := None;
                     d_role_name := Some "ADMIN";
                     d_permission_name := Some "CAN_DELETE" |};
     ai_message := "Assigning CAN_DELETE to ADMIN"; ai_error := None |}.

Definition gatewayDown : AIResponse :=
  {| action := "create_permission";
     data := Some {| d_name := Some "can_view"; d_description := None;
                     d_role_name := None; d_permission_name := None |};
     ai_message := "Creating can_view"; ai_error := Some "AI gateway error: 503" |}.

Definition canViewForm : FormData :=
  {| f_name := "can_view "; f_description := "  " |}.

Definition noon : AssistantPage.Instant :=
  {| AssistantPage.now := "1704110400000";
     AssistantPage.date := "2024-01-01T12:00:00Z" |}.

Definition justAfterNoon : AssistantPage.Instant :=
  {| AssistantPage.now := "1704110401000";
     AssistantPage.date := "2024-01-01T12:00:01Z" |}.

Definition typing : AssistantPage.Chat :=
  {| AssistantPage.messages := []; AssistantPage.input := "create can_view ";
     AssistantPage.processing := false; AssistantPage.invoked := [] |}.

Definition idle : AssistantPage.Chat :=
  {| AssistantPage.messages := []; AssistantPage.input := "   ";
     AssistantPage.processing := false; AssistantPage.invoked := [] |}.

Definition chatty : RbacAi.Gateway :=
  {| RbacAi.status := 200; RbacAi.text := RbacAi.Returned EmptyString;
     RbacAi.content := RbacAi.Returned (Some "Sure: {x} done") |}.

(** Two rows of one name, to watch the sort keep their order. *)
Definition canDeleteTwin : Permission :=
  {| p_id := "p5"; p_name := "can_delete"; p_description := Some "the later one";
     p_created_at := "2024-01-08T00:00:00Z" |}.
(** * Properties *)

(** ** Lists and strings *)

Lemma filter_decide {A} (f : A -> bool) (P : A -> Prop) `{!∀ x, Decision (P x)}
    (l : list A) :
  (∀ x, f x = true ↔ P x) -> List.filter f l = filter P l.
Proof.
  intros Hf. induction l as [|a l IH]; [done|].
  cbn [List.filter]. rewrite IH.
  destruct (f a) eqn:Ha.
  - rewrite filter_cons_True; [done|]. by apply Hf.
  - rewrite filter_cons_False; [done|]. rewrite <- Hf. congruence.
Qed.

Lemma negb_eqb_true_iff (a b : string) : negb (String.eqb a b) = true ↔ a ≠ b.
Proof. rewrite negb_true_iff. apply String.eqb_neq. Qed.

Lemma includesId_spec (ids : list string) (x : string) :
  includesId ids x = true ↔ x ∈ ids.
Proof.
  unfold includesId. rewrite existsb_exists. split.
  - intros (y & Hy & Hxy). apply String.eqb_eq in Hxy. subst.
    by apply list_elem_of_In.
  - intros Hx. exists x. split; [by apply list_elem_of_In | apply String.eqb_refl].
Qed.

Lemma includes_permission_ids rps roleId p :
  includesId (map permission_id
                (List.filter (fun rp => String.eqb (role_id rp) roleId) rps)) (p_id p) = true
  ↔ grants rps roleId p.
Proof.
  rewrite includesId_spec. unfold grants. rewrite Exists_exists.
  rewrite list_elem_of_fmap. split.
  - intros (rp & Hid & Hin). apply list_elem_of_In, filter_In in Hin as [Hin Hr].
    apply String.eqb_eq in Hr. exists rp.
    split; [by apply list_elem_of_In | done].
  - intros (rp & Hin & Hr & Hp). exists rp. split; [done|].
    apply list_elem_of_In, filter_In. split; [by apply list_elem_of_In|].
    by apply String.eqb_eq.
Qed.

Lemma includes_role_ids rps permissionId r :
  includesId (map role_id
                (List.filter (fun rp => String.eqb (permission_id rp) permissionId) rps))
             (r_id r) = true
  ↔ grantedTo rps permissionId r.
Proof.
  rewrite includesId_spec. unfold grantedTo. rewrite Exists_exists.
  rewrite list_elem_of_fmap. split.
  - intros (rp & Hid & Hin). apply list_elem_of_In, filter_In in Hin as [Hin Hr].
    apply String.eqb_eq in Hr. exists rp.
    split; [by apply list_elem_of_In | done].
  - intros (rp & Hin & Hr & Hp). exists rp. split; [done|].
    apply list_elem_of_In, filter_In. split; [by apply list_elem_of_In|].
    by apply String.eqb_eq.
Qed.

Lemma filter_none {A} (P : A -> Prop) `{!∀ x, Decision (P x)} (l : list A) :
  (∀ x, x ∈ l -> ¬ P x) -> filter P l = [].
Proof.
  induction l as [|a l IH]; [done|]. intros Hl.
  rewrite filter_cons_False; [|apply Hl; left].
  apply IH. intros x Hx. apply Hl. by right.
Qed.

(** ** Derived queries *)

Lemma getPermissionsForRole_filter (w : World) (roleId : string) :
  getPermissionsForRole w roleId
    = filter (grants (rolePermissions w) roleId) (permissions w).
Proof.
  unfold getPermissionsForRole. apply filter_decide.
  intros p. apply includes_permission_ids.
Qed.

Lemma getRolesForPermission_filter (w : World) (permissionId : string) :
  getRolesForPermission w permissionId
    = filter (grantedTo (rolePermissions w) permissionId) (roles w).
Proof.
  unfold getRolesForPermission. apply filter_decide.
  intros r. apply includes_role_ids.
Qed.

(** C7. [getPermissionsForRole] and [getRolesForPermission] take the current
    arrays and return a list: they send nothing to the store and change no
    state.  The result is the permissions array filtered, in its order, to
    exactly the permissions whose id is the [permission_id] of some link
    with the given [role_id]; symmetrically for roles. *)
Theorem derived_queries_filter_mirror (w : World) (roleId permissionId : string) :
  (getPermissionsForRole w roleId
     = filter (grants (rolePermissions w) roleId) (permissions w)
   ∧ getPermissionsForRole w roleId `sublist_of` permissions w
   ∧ ∀ p, p ∈ getPermissionsForRole w roleId
          ↔ p ∈ permissions w
            ∧ ∃ rp, rp ∈ rolePermissions w
                    ∧ role_id rp = roleId ∧ permission_id rp = p_id p)
  ∧ (getRolesForPermission w permissionId
       = filter (grantedTo (rolePermissions w) permissionId) (roles w)
     ∧ getRolesForPermission w permissionId `sublist_of` roles w
     ∧ ∀ r, r ∈ getRolesForPermission w permissionId
            ↔ r ∈ roles w
              ∧ ∃ rp, rp ∈ rolePermissions w
                      ∧ permission_id rp = permissionId ∧ role_id rp = r_id r).
Proof.
  rewrite getPermissionsForRole_filter, getRolesForPermission_filter.
  split; (split; [done | split; [apply sublist_filter |]]).
  - intros p. rewrite list_elem_of_filter. unfold grants.
    rewrite Exists_exists. tauto.
  - intros r. rewrite list_elem_of_filter. unfold grantedTo.
    rewrite Exists_exists. tauto.
Qed.

(** ** Running the operations *)

Ltac run :=
  unfold createPermission, updatePermission, deletePermission,
         createRole, updateRole, deleteRole,
         assignPermissionToRole, removePermissionFromRole,
         supabase, toast, emit, setPermissions, setRoles, setRolePermissions,
         setLoading, getPermissions, getRoles,
         mbind, M_bind, mret, M_ret, fmap, M_fmap;
  cbn [fst snd permissions roles rolePermissions loading log mirror].

Lemma deletePermission_success (id : string) (w : World) :
  fst (deletePermission id (Success ()) w) = true
  ∧ permissions (snd (deletePermission id (Success ()) w))
    = filter (fun p => p_id p ≠ id) (permissions w)
  ∧ roles (snd (deletePermission id (Success ()) w)) = roles w
  ∧ rolePermissions (snd (deletePermission id (Success ()) w))
    = filter (fun rp => permission_id rp ≠ id) (rolePermissions w).
Proof.
  run. repeat split.
  - apply filter_decide. intros p. apply negb_eqb_true_iff.
  - apply filter_decide. intros rp. apply negb_eqb_true_iff.
Qed.

Lemma deleteRole_success (id : string) (w : World) :
  fst (deleteRole id (Success ()) w) = true
  ∧ permissions (snd (deleteRole id (Success ()) w)) = permissions w
  ∧ roles (snd (deleteRole id (Success ()) w))
    = filter (fun r => r_id r ≠ id) (roles w)
  ∧ rolePermissions (snd (deleteRole id (Success ()) w))
    = filter (fun rp => role_id rp ≠ id) (rolePermissions w).
Proof.
  run. repeat split.
  - apply filter_decide. intros p. apply negb_eqb_true_iff.
  - apply filter_decide. intros rp. apply negb_eqb_true_iff.
Qed.

(** ** Cascading deletes *)

(** C1. A successful [deletePermission id] returns [true], keeps exactly the
    permissions whose id differs from [id] and exactly the links whose
    [permission_id] differs from [id]; afterwards no permission and no link
    with that id is left, [getPermissionsForRole] never returns a permission
    with that id and [getRolesForPermission id] is empty.  A successful
    [deleteRole id] does the same on roles and on the [role_id] of links. *)
Theorem delete_cascades (id : string) (w : World) :
  let wp := snd (deletePermission id (Success ()) w) in
  let wr := snd (deleteRole id (Success ()) w) in
  (fst (deletePermission id (Success ()) w) = true
   ∧ permissions wp = filter (fun p => p_id p ≠ id) (permissions w)
   ∧ rolePermissions wp = filter (fun rp => permission_id rp ≠ id) (rolePermissions w)
   ∧ (∀ p, p ∈ permissions wp -> p_id p ≠ id)
   ∧ (∀ rp, rp ∈ rolePermissions wp -> permission_id rp ≠ id)
   ∧ (∀ roleId p, p ∈ getPermissionsForRole wp roleId -> p_id p ≠ id)
   ∧ getRolesForPermission wp id = [])
  ∧ (fst (deleteRole id (Success ()) w) = true
     ∧ roles wr = filter (fun r => r_id r ≠ id) (roles w)
     ∧ rolePermissions wr = filter (fun rp => role_id rp ≠ id) (rolePermissions w)
     ∧ (∀ r, r ∈ roles wr -> r_id r ≠ id)
     ∧ (∀ rp, rp ∈ rolePermissions wr -> role_id rp ≠ id)
     ∧ (∀ permissionId r, r ∈ getRolesForPermission wr permissionId -> r_id r ≠ id)
     ∧ getPermissionsForRole wr id = []).
Proof.
  intros wp wr.
  destruct (deletePermission_success id w) as (Hp1 & Hp2 & Hp3 & Hp4).
  destruct (deleteRole_success id w) as (Hr1 & Hr2 & Hr3 & Hr4).
  fold wp in Hp2, Hp3, Hp4. fold wr in Hr2, Hr3, Hr4.
  assert (Hperm : ∀ p, p ∈ permissions wp -> p_id p ≠ id).
  { intros p. rewrite Hp2, list_elem_of_filter. tauto. }
  assert (Hrole : ∀ r, r ∈ roles wr -> r_id r ≠ id).
  { intros r. rewrite Hr3, list_elem_of_filter. tauto. }
  assert (Hlp : ∀ rp, rp ∈ rolePermissions wp -> permission_id rp ≠ id).
  { intros rp. rewrite Hp4, list_elem_of_filter. tauto. }
  assert (Hlr : ∀ rp, rp ∈ rolePermissions wr -> role_id rp ≠ id).
  { intros rp. rewrite Hr4, list_elem_of_filter. tauto. }
  split; repeat split; try done.
  - intros roleId p.
    rewrite getPermissionsForRole_filter.
    rewrite list_elem_of_filter. intros [_ Hin]. by apply Hperm.
  - rewrite getRolesForPermission_filter.
    apply filter_none. intros r _ Hg.
    apply Exists_exists in Hg as (rp & Hin & Hid & _). by apply (Hlp rp).
  - intros permissionId r.
    rewrite getRolesForPermission_filter.
    rewrite list_elem_of_filter. intros [_ Hin]. by apply Hrole.
  - rewrite getPermissionsForRole_filter.
    apply filter_none. intros p _ Hg.
    apply Exists_exists in Hg as (rp & Hin & Hid & _). by apply (Hlr rp).
Qed.

(** ** Sorting keeps the rows *)

Lemma insertByName_Permutation {A} (localeCompare : string -> string -> Z)
    (name : A -> string) (x : A) (l : list A) :
  insertByName localeCompare name x l ≡ₚ x :: l.
Proof.
  induction l as [|y l IH]; cbn [insertByName]; [done|].
  case_decide; [done|]. rewrite IH. apply Permutation_swap.
Qed.

Lemma sortByName_Permutation {A} (localeCompare : string -> string -> Z)
    (name : A -> string) (l : list A) :
  sortByName localeCompare name l ≡ₚ l.
Proof.
  unfold sortByName. induction l as [|x l IH]; cbn [foldr]; [done|].
  by rewrite insertByName_Permutation, IH.
Qed.

(** ** All or nothing *)

Lemma map_replace {A} (key : A -> string) (id : string) (d : A) (l : list A) :
  map (fun x => if String.eqb (key x) id then d else x) l
  = (fun x => if decide (key x = id) then d else x) <$> l.
Proof.
  apply list_fmap_ext. intros _ x _.
  destruct (String.eqb_spec (key x) id); case_decide; congruence.
Qed.

Lemma filter_not_pair (roleId permissionId : string) (rps : list RolePermission) :
  List.filter (fun rp => negb (String.eqb (role_id rp) roleId
                               && String.eqb (permission_id rp) permissionId)) rps
  = filter (fun rp => ¬ (role_id rp = roleId ∧ permission_id rp = permissionId)) rps.
Proof.
  apply filter_decide. intros rp.
  rewrite negb_true_iff, andb_false_iff, !String.eqb_neq.
  destruct (decide (role_id rp = roleId)); destruct (decide (permission_id rp = permissionId));
    tauto.
Qed.

(** C2. For each of the eight mutating operations and every state: when the
    store answers with an error the operation returns its failure indicator
    ([null] or [false]) and the three collections are what they were; when
    the store accepts, the operation returns a success value and the
    collections are the reconciliation of the old ones. *)
Theorem mutations_all_or_nothing (localeCompare : string -> string -> Z)
    (c : Call) (w : World) :
  if remoteFailed c
  then isFailure (fst (perform localeCompare c w)) = true
       ∧ mirror (snd (perform localeCompare c w)) = mirror w
  else isFailure (fst (perform localeCompare c w)) = false
       ∧ reconciled c (mirror w) (mirror (snd (perform localeCompare c w))).
Proof.
  destruct c as [n d [x|e] | i n d [x|e] | i [[]|e] | n d [x|e] | i n d [x|e]
                | i [[]|e] | r p [x|e] | r p [[]|e]];
    cbn [remoteFailed failed error_of perform]; unfold mirror;
    run; cbn [isFailure reconciled]; try done.
  - repeat split. apply sortByName_Permutation.
  - repeat split. rewrite sortByName_Permutation.
    by rewrite map_replace.
  - repeat split; apply filter_decide; intros ?; apply negb_eqb_true_iff.
  - repeat split. apply sortByName_Permutation.
  - repeat split. rewrite sortByName_Permutation.
    by rewrite map_replace.
  - repeat split; apply filter_decide; intros ?; apply negb_eqb_true_iff.
  - destruct (includes _ _); done.
  - repeat split. apply filter_not_pair.
Qed.

(** ** Order of names *)

Section Sorting.

Variable localeCompare : string -> string -> Z.
Hypothesis localeCompare_consistent : consistentComparator localeCompare.

Local Instance byName_total {A} (name : A -> string) : Total (byName localeCompare name).
Proof. intros a b. apply localeCompare_consistent. Qed.

Local Instance byName_trans {A} (name : A -> string) :
  Transitive (byName localeCompare name).
Proof.
  intros a b c. unfold byName.
  apply (proj2 localeCompare_consistent).
Qed.

Lemma insertByName_sorted {A} (name : A -> string) (x : A) (l : list A) :
  StronglySorted (byName localeCompare name) l ->
  StronglySorted (byName localeCompare name) (insertByName localeCompare name x l).
Proof.
  induction 1 as [|y l Hl IH Hy]; cbn [insertByName]; [by repeat constructor|].
  case_decide as Hxy.
  - constructor; [by constructor|]. constructor; [done|].
    eapply Forall_impl; [exact Hy|]. intros z Hz. by etrans.
  - constructor; [done|].
    rewrite (insertByName_Permutation localeCompare name x l).
    constructor; [|done]. by destruct (total (byName localeCompare name) x y).
Qed.

Lemma sortByName_sorted {A} (name : A -> string) (l : list A) :
  StronglySorted (byName localeCompare name) (sortByName localeCompare name l).
Proof.
  unfold sortByName. induction l as [|x l IH]; cbn [foldr]; [constructor|].
  by apply insertByName_sorted.
Qed.

Lemma filter_sorted {A} (R : relation A) (f : A -> bool) (l : list A) :
  StronglySorted R l -> StronglySorted R (List.filter f l).
Proof.
  induction 1 as [|a l Hl IH Ha]; cbn [List.filter]; [constructor|].
  destruct (f a); [|done]. constructor; [done|].
  apply Forall_forall. intros x Hx.
  apply list_elem_of_In, filter_In in Hx as [Hx _].
  rewrite Forall_forall in Ha. by apply Ha, list_elem_of_In.
Qed.

Lemma perform_sorted (c : Call) (w : World) :
  sortedMirror localeCompare w ->
  sortedMirror localeCompare (snd (perform localeCompare c w)).
Proof.
  intros [Hp Hr]. unfold sortedMirror.
  destruct c as [n d [x|e] | i n d [x|e] | i [[]|e] | n d [x|e] | i n d [x|e]
                | i [[]|e] | r p [x|e] | r p [[]|e]];
    cbn [perform]; run;
    try (destruct (includes _ _); cbn [permissions roles]);
    auto using sortByName_sorted, filter_sorted.
Qed.

Lemma performAll_sorted (cs : list Call) (w : World) :
  sortedMirror localeCompare w ->
  sortedMirror localeCompare (performAll localeCompare cs w).
Proof.
  revert w. induction cs as [|c cs IH]; intros w Hw; [done|].
  cbn. apply IH. by apply perform_sorted.
Qed.

Lemma initial_sorted : sortedMirror localeCompare initial.
Proof. split; constructor. Qed.

(** C4, as the code has it.  The order is the one of the host's
    [localeCompare], whatever it is, as long as it is a consistent
    comparator: after an accepted [createPermission] or [updatePermission]
    the permissions are in the order of their names under it, after an
    accepted [createRole] or [updateRole] the roles are, whatever the state
    before; and every mutating call, accepted or refused, keeps both
    collections in that order, so that they are in order after every
    sequence of calls made on a freshly mounted hook or on a mirror that
    was in order. *)
Theorem names_stay_sorted :
  (∀ name description data w,
      StronglySorted (byName localeCompare p_name)
        (permissions (snd (createPermission localeCompare name description
                             (Success data) w))))
  ∧ (∀ id name description data w,
       StronglySorted (byName localeCompare p_name)
         (permissions (snd (updatePermission localeCompare id name description
                              (Success data) w))))
  ∧ (∀ name description data w,
       StronglySorted (byName localeCompare r_name)
         (roles (snd (createRole localeCompare name description (Success data) w))))
  ∧ (∀ id name description data w,
       StronglySorted (byName localeCompare r_name)
         (roles (snd (updateRole localeCompare id name description (Success data) w))))
  ∧ (∀ cs w, sortedMirror localeCompare w ->
             sortedMirror localeCompare (performAll localeCompare cs w))
  ∧ (∀ cs, sortedMirror localeCompare (performAll localeCompare cs initial)).
Proof.
  split; [|split; [|split; [|split; [|split]]]].
  - intros. run. apply sortByName_sorted.
  - intros. run. apply sortByName_sorted.
  - intros. run. apply sortByName_sorted.
  - intros. run. apply sortByName_sorted.
  - apply performAll_sorted.
  - intros cs. apply performAll_sorted, initial_sorted.
Qed.

End Sorting.

(** *** Comparison by code units is consistent *)

Lemma ascii_compare_trans (a b c : ascii) :
  Ascii.compare a b ≠ Gt -> Ascii.compare b c ≠ Gt ->
  Ascii.compare a c ≠ Gt
  ∧ (Ascii.compare a c = Eq -> Ascii.compare a b = Eq ∧ Ascii.compare b c = Eq).
Proof.
  unfold Ascii.compare.
  destruct (N.compare_spec (N_of_ascii a) (N_of_ascii b)),
           (N.compare_spec (N_of_ascii b) (N_of_ascii c)),
           (N.compare_spec (N_of_ascii a) (N_of_ascii c));
    intros; split; intros; try split; try congruence; lia.
Qed.

Lemma string_compare_trans (a b c : string) :
  String.compare a b ≠ Gt -> String.compare b c ≠ Gt -> String.compare a c ≠ Gt.
Proof.
  revert b c. induction a as [|x a IH]; intros [|y b] [|z c]; cbn; try congruence.
  intros Hab Hbc.
  assert (Hxy : Ascii.compare x y ≠ Gt) by (destruct (Ascii.compare x y); congruence).
  assert (Hyz : Ascii.compare y z ≠ Gt) by (destruct (Ascii.compare y z); congruence).
  destruct (ascii_compare_trans x y z Hxy Hyz) as [Hxz Heq].
  destruct (Ascii.compare x z) eqn:E; try congruence.
  destruct Heq as [E1 E2]; [done|]. rewrite E1 in Hab. rewrite E2 in Hbc.
  by apply (IH b c).
Qed.

Lemma codeUnitCompare_le (a b : string) :
  (codeUnitCompare a b <= 0)%Z ↔ String.compare a b ≠ Gt.
Proof. unfold codeUnitCompare. destruct (String.compare a b); split; (lia || congruence). Qed.

Lemma codeUnitCompare_consistent : consistentComparator codeUnitCompare.
Proof.
  split.
  - intros a b. rewrite !codeUnitCompare_le, (String.compare_antisym a b).
    destruct (String.compare b a); cbn; auto.
  - intros a b c. rewrite !codeUnitCompare_le. apply string_compare_trans.
Qed.

(** ** Refresh *)

Ltac logs :=
  unfold remoteCalls, toasts; cbn [log];
  rewrite ?omap_app; simpl; rewrite ?app_nil_r, <- ?app_assoc; simpl.

Lemma fetchData_accepted (user : User) permData roleData rpData (w : World) :
  let w' := snd (fetchData (Some user) (Success permData) (Success roleData)
                   (Success rpData) w) in
  mirror w' = (default [] permData, default [] roleData, default [] rpData)
  ∧ toasts w' = toasts w
  ∧ loading w' = false.
Proof.
  unfold fetchData, fetchData_try. run. repeat split. by logs.
Qed.

Lemma fetchData_failed_read (user : User)
    (permRes : PostgrestResponse (option (list Permission)))
    (roleRes : PostgrestResponse (option (list Role)))
    (rpRes : PostgrestResponse (option (list RolePermission)))
    (w : World) :
  failed permRes = true ∨ failed roleRes = true ∨ failed rpRes = true ->
  let w' := snd (fetchData (Some user) permRes roleRes rpRes w) in
  mirror w' = mirror w
  ∧ remoteCalls w' = remoteCalls w ++ refreshQueries
  ∧ toasts w' = toasts w ++ [loadErrorToast]
  ∧ (∃ error,
        log w' = log w ++ (Remote <$> refreshQueries)
                  ++ [ConsoleError "Error fetching RBAC data:" error;
                      Toasted loadErrorToast]
        ∧ Some error ∈ [error_of permRes; error_of roleRes; error_of rpRes])
  ∧ loading w' = false.
Proof.
  intros Hfail w'. subst w'. unfold fetchData, fetchData_try.
  destruct permRes as [pd|pe], roleRes as [rd|re], rpRes as [ld|le];
    cbn [failed error_of] in Hfail; try (exfalso; intuition congruence);
    run; (split; [done|]); (split; [by logs|]); (split; [by logs|]);
    (split; [|done]).
  all: eexists; split; [by rewrite <- !app_assoc | apply list_elem_of_In; simpl; auto].
Qed.

(** C3, as the code has it.  When the user is signed in and at least one of
    the three reads of [fetchData] comes back with an error, the three
    queries have been sent, none of the three collections is replaced and
    [loading] is reset.  Nothing is handed back to the caller: [fetchData]
    returns what it returns when the three reads succeed.  The failure is
    told by [fetchData] itself, with the destructive toast
    [Error loading data] and on the console with the error of a failed
    read. *)
Theorem refresh_fails_as_a_unit (user : User)
    (permRes : PostgrestResponse (option (list Permission)))
    (roleRes : PostgrestResponse (option (list Role)))
    (rpRes : PostgrestResponse (option (list RolePermission)))
    (w : World) :
  failed permRes = true ∨ failed roleRes = true ∨ failed rpRes = true ->
  let w' := snd (fetchData (Some user) permRes roleRes rpRes w) in
  mirror w' = mirror w
  ∧ remoteCalls w' = remoteCalls w ++ refreshQueries
  ∧ toasts w' = toasts w ++ [loadErrorToast]
  ∧ (∃ error,
        log w' = log w ++ (Remote <$> refreshQueries)
                  ++ [ConsoleError "Error fetching RBAC data:" error;
                      Toasted loadErrorToast]
        ∧ Some error ∈ [error_of permRes; error_of roleRes; error_of rpRes])
  ∧ loading w' = false
  ∧ (∀ permData roleData rpData,
        fst (fetchData (Some user) permRes roleRes rpRes w)
        = fst (fetchData (Some user) (Success permData) (Success roleData)
                 (Success rpData) w)).
Proof.
  intros Hfail w'.
  destruct (fetchData_failed_read user permRes roleRes rpRes w Hfail)
    as (H1 & H2 & H3 & H4 & H5).
  repeat (split; [assumption|]).
  intros permData roleData rpData. by destruct (fst _), (fst _).
Qed.

(** ** Assignments *)

Lemma assign_refused (roleId permissionId : string) (error : PostgrestError) (w : World) :
  fst (assignPermissionToRole roleId permissionId (Failure error) w) = None
  ∧ mirror (snd (assignPermissionToRole roleId permissionId (Failure error) w)) = mirror w
  ∧ remoteCalls (snd (assignPermissionToRole roleId permissionId (Failure error) w))
    = remoteCalls w ++ [InsertLink roleId permissionId]
  ∧ toasts (snd (assignPermissionToRole roleId permissionId (Failure error) w))
    = toasts w ++ [if includes (message error) "duplicate"
                   then alreadyAssignedToast else assignErrorToast error].
Proof.
  run. destruct (includes (message error) "duplicate"); run; repeat split; by logs.
Qed.

Lemma assign_accepted (roleId permissionId : string) (data : RolePermission) (w : World) :
  fst (assignPermissionToRole roleId permissionId (Success data) w) = Some data
  ∧ mirror (snd (assignPermissionToRole roleId permissionId (Success data) w))
    = (permissions w, roles w, rolePermissions w ++ [data]).
Proof. by run. Qed.

(** C5, as the code has it.  When the store refuses an insert with an error
    whose message contains [duplicate], [assignPermissionToRole] returns
    [null] and leaves the three collections as they were, and so it does on
    every other error: the returned value is the same.  The two cases differ
    in the toast the hook raises itself: [Already assigned] for a duplicate,
    [Error assigning permission] with the message of the store otherwise.
    When the pair has no link, an accepted call followed by an identical
    call that the store refuses as a duplicate leaves exactly one link of
    the pair, the record the store returned. *)
Theorem duplicate_assignment_told_by_toast (roleId permissionId : string)
    (duplicate : PostgrestError) (w : World) :
  includes (message duplicate) "duplicate" = true ->
  let refused := assignPermissionToRole roleId permissionId (Failure duplicate) w in
  (fst refused = None
   ∧ mirror (snd refused) = mirror w
   ∧ toasts (snd refused) = toasts w ++ [alreadyAssignedToast])
  ∧ (∀ other : PostgrestError,
        includes (message other) "duplicate" = false ->
        let generic := assignPermissionToRole roleId permissionId (Failure other) w in
        fst generic = fst refused
        ∧ mirror (snd generic) = mirror w
        ∧ toasts (snd generic) = toasts w ++ [assignErrorToast other])
  ∧ (∀ data : RolePermission,
        role_id data = roleId -> permission_id data = permissionId ->
        linksOf roleId permissionId (rolePermissions w) = [] ->
        let first := snd (assignPermissionToRole roleId permissionId (Success data) w) in
        let second := assignPermissionToRole roleId permissionId (Failure duplicate) first in
        fst second = None
        ∧ linksOf roleId permissionId (rolePermissions (snd second)) = [data]
        ∧ last (toasts (snd second)) = Some alreadyAssignedToast).
Proof.
  intros Hdup refused.
  destruct (assign_refused roleId permissionId duplicate w) as (R1 & R2 & _ & R4).
  rewrite Hdup in R4. split; [done|]. split.
  - intros other Hother generic.
    destruct (assign_refused roleId permissionId other w) as (G1 & G2 & _ & G4).
    rewrite Hother in G4. subst generic refused. by rewrite G1, R1.
  - intros data Hr Hp Hnone first second.
    destruct (assign_accepted roleId permissionId data w) as (_ & A2).
    destruct (assign_refused roleId permissionId duplicate first) as (S1 & S2 & _ & S4).
    rewrite Hdup in S4. fold second in S1, S2, S4. split; [done|].
    assert (Hlinks : rolePermissions (snd second) = rolePermissions w ++ [data]).
    { fold first in A2. unfold mirror in S2, A2. congruence. }
    split.
    + rewrite Hlinks. unfold linksOf in *. rewrite filter_app, Hnone.
      by rewrite filter_cons_True, filter_nil.
    + rewrite S4. apply last_snoc.
Qed.

(** C8. When the mirror holds no link of the pair,
    [removePermissionFromRole] leaves the three collections as they were
    whatever the store answers, and returns [true] when the store reports
    no error.  In every state an accepted call returns [true], keeps the
    permissions and the roles, and keeps exactly the links that are not of
    the pair, in their order; no link of the pair is left. *)
Theorem remove_is_idempotent (roleId permissionId : string) (w : World) :
  (linksOf roleId permissionId (rolePermissions w) = [] ->
   fst (removePermissionFromRole roleId permissionId (Success ()) w) = true
   ∧ ∀ reply,
       mirror (snd (removePermissionFromRole roleId permissionId reply w)) = mirror w)
  ∧ (let w' := snd (removePermissionFromRole roleId permissionId (Success ()) w) in
     fst (removePermissionFromRole roleId permissionId (Success ()) w) = true
     ∧ permissions w' = permissions w
     ∧ roles w' = roles w
     ∧ rolePermissions w'
       = filter (fun rp => ¬ (role_id rp = roleId ∧ permission_id rp = permissionId))
                (rolePermissions w)
     ∧ linksOf roleId permissionId (rolePermissions w') = []).
Proof.
  assert (Hacc : rolePermissions
                   (snd (removePermissionFromRole roleId permissionId (Success ()) w))
                 = filter (fun rp => ¬ (role_id rp = roleId
                                        ∧ permission_id rp = permissionId))
                          (rolePermissions w)).
  { run. apply filter_not_pair. }
  split.
  - intros Hnone. split; [done|]. intros [[]|e]; [|done].
    unfold mirror. rewrite Hacc. run. f_equal.
    clear Hacc. unfold linksOf in Hnone.
    induction (rolePermissions w) as [|rp l IH]; [done|].
    rewrite filter_cons in Hnone. case_decide; [done|].
    rewrite filter_cons_True by done. f_equal. by apply IH.
  - cbv zeta. rewrite Hacc. repeat split.
    unfold linksOf. apply filter_none. intros rp.
    rewrite list_elem_of_filter. tauto.
Qed.

(** ** The dispatcher *)

Lemma find_none_iff {A} (pred : A -> bool) (l : list A) :
  find pred l = None ↔ ∀ x, x ∈ l -> pred x = false.
Proof.
  unfold find. split.
  - intros Hnone x Hx. by apply (find_none pred l Hnone), list_elem_of_In.
  - intros Hall. destruct (List.find pred l) as [x|] eqn:E; [|done].
    apply find_some in E as [Hin Hx]. apply list_elem_of_In, Hall in Hin. congruence.
Qed.

Lemma find_some_elem {A} (pred : A -> bool) (l : list A) (x : A) :
  find pred l = Some x -> x ∈ l ∧ pred x = true.
Proof. intros E. apply find_some in E as [Hin Hx]. by rewrite list_elem_of_In. Qed.

Ltac dispatch H :=
  unfold executeAction; rewrite H; cbn [String.eqb Ascii.eqb Bool.eqb].

(** C10. An action whose name is none of [create_permission],
    [create_role], [assign_permission], [remove_permission], [info] and
    [error] is answered with [success: true] and the message of the model;
    the world is the same afterwards: no query, no toast, no change of the
    collections. *)
Theorem unknown_action_is_info (localeCompare : string -> string -> Z)
    (toLowerCase : string -> string)
    (response : AIResponse) (store : StoreReplies) (w : World) :
  action response ∉ ["create_permission"; "create_role"; "assign_permission";
                     "remove_permission"; "info"; "error"] ->
  executeAction localeCompare toLowerCase response store w
  = ({| success := true; result_message := ai_message response |}, w).
Proof.
  intros Hout. unfold executeAction.
  repeat match goal with
  | |- context [String.eqb (action response) ?s] =>
      destruct (String.eqb_spec (action response) s) as [E|_];
        [exfalso; apply Hout; rewrite E; apply list_elem_of_In; simpl; tauto|]
  end.
  done.
Qed.

(** C9, as the code has it.  For an [assign_permission] or
    [remove_permission] action: when a name is absent or empty the
    dispatcher fails with [Both role name and permission name are required];
    when both are present, the role is looked up first, then the permission,
    each by equality of the lower-cased names; a role without match fails
    with [Role "X" not found], a permission without match (the role being
    found) with [Permission "Y" not found].  In the three cases the world is
    the same afterwards.  When both match, the one query sent carries the
    ids of a role and of a permission of the mirror with these names. *)
Theorem unresolved_names_stop_dispatch (localeCompare : string -> string -> Z)
    (toLowerCase : string -> string)
    (response : AIResponse) (store : StoreReplies) (w : World) :
  action response = "assign_permission" ∨ action response = "remove_permission" ->
  let sameName (x y : string) := toLowerCase x = toLowerCase y in
  match namesOf response with
  | None =>
      executeAction localeCompare toLowerCase response store w
      = ({| success := false;
            result_message := "Both role name and permission name are required" |}, w)
  | Some (role_name, permission_name) =>
      ((∀ r, r ∈ roles w -> ¬ sameName (r_name r) role_name) ->
       executeAction localeCompare toLowerCase response store w
       = ({| success := false;
             result_message := "Role " +:+ quoted role_name +:+ " not found" |}, w))
      ∧ ((∃ r, r ∈ roles w ∧ sameName (r_name r) role_name) ->
         (∀ p, p ∈ permissions w -> ¬ sameName (p_name p) permission_name) ->
         executeAction localeCompare toLowerCase response store w
         = ({| success := false;
               result_message := "Permission " +:+ quoted permission_name
                                 +:+ " not found" |}, w))
      ∧ ((∃ r, r ∈ roles w ∧ sameName (r_name r) role_name) ->
         (∃ p, p ∈ permissions w ∧ sameName (p_name p) permission_name) ->
         ∃ r p, r ∈ roles w ∧ sameName (r_name r) role_name
                ∧ p ∈ permissions w ∧ sameName (p_name p) permission_name
                ∧ remoteCalls (snd (executeAction localeCompare toLowerCase response store w))
                  = remoteCalls w ++ [linkQuery (action response) (r_id r) (p_id p)])
  end.
Proof.
  intros Hact sameName. unfold namesOf.
  destruct (present (data response ≫= d_role_name)) as [role_name|] eqn:Er;
    [destruct (present (data response ≫= d_permission_name))
       as [permission_name|] eqn:Ep|].
  - set (role := find (fun r => String.eqb (toLowerCase (r_name r))
                                           (toLowerCase role_name)) (roles w)).
    set (permission := find (fun p => String.eqb (toLowerCase (p_name p))
                                                 (toLowerCase permission_name))
                            (permissions w)).
    assert (Hrole : role = None ↔ ∀ r, r ∈ roles w -> ¬ sameName (r_name r) role_name).
    { subst role. rewrite find_none_iff.
      split; intros H r Hr; specialize (H r Hr); by apply String.eqb_neq. }
    assert (Hperm : permission = None
                    ↔ ∀ p, p ∈ permissions w -> ¬ sameName (p_name p) permission_name).
    { subst permission. rewrite find_none_iff.
      split; intros H p Hp; specialize (H p Hp); by apply String.eqb_neq. }
    split; [|split].
    + intros Hno. apply Hrole in Hno.
      destruct Hact as [Hact|Hact]; dispatch Hact; rewrite Er, Ep; run;
        fold role; by rewrite Hno.
    + intros (r & Hr & Hsame) Hno. apply Hperm in Hno.
      destruct role as [r'|] eqn:Erole;
        [|exfalso; by apply (proj1 Hrole eq_refl r Hr)].
      destruct Hact as [Hact|Hact]; dispatch Hact; rewrite Er, Ep; run;
        fold role; fold permission; by rewrite Erole, Hno.
    + intros (r & Hr & Hsame) (p & Hp & Hsamep).
      destruct role as [r'|] eqn:Erole;
        [|exfalso; by apply (proj1 Hrole eq_refl r Hr)].
      destruct permission as [p'|] eqn:Eperm;
        [|exfalso; by apply (proj1 Hperm eq_refl p Hp)].
      apply find_some_elem in Erole as Hr'. destruct Hr' as [Hr' Hn'].
      apply find_some_elem in Eperm as Hp'. destruct Hp' as [Hp' Hm'].
      apply String.eqb_eq in Hn', Hm'.
      exists r', p'. repeat (split; [done|]).
      destruct Hact as [Hact|Hact]; dispatch Hact; rewrite Er, Ep; run;
        fold role; fold permission; rewrite Erole, Eperm; unfold linkQuery;
        cbn [String.eqb Ascii.eqb Bool.eqb].
      * destruct (linkInserted store) as [d|e]; run;
          [|destruct (includes _ _); run]; by logs.
      * destruct (linkDeleted store) as [[]|e]; run; by logs.
  - destruct Hact as [Hact|Hact]; dispatch Hact; by rewrite Er, Ep.
  - destruct Hact as [Hact|Hact]; dispatch Hact; rewrite Er;
      by destruct (present (data response ≫= d_permission_name)).
Qed.

(** ** Names without content *)

Lemma trimStart_blank (s : string) : blank s -> trimStart s = EmptyString.
Proof.
  unfold blank. induction s as [|c s IH]; cbn; [done|].
  intros H. apply Forall_cons in H as [-> H]. by apply IH.
Qed.

Lemma trim_blank (s : string) : blank s -> trim s = EmptyString.
Proof. intros H. unfold trim. by rewrite trimStart_blank. Qed.

(** C6, as the code has it.  [createPermission] does not look at the name:
    for every name and description, on every reply, it sends the insert with
    that name, and when the store accepts the row it returns the row, which
    joins the permissions.  Names without content are stopped by its
    callers: the form of the permissions page does nothing when the name is
    empty or white space only, and the dispatcher answers
    [Permission name is required] when the name is absent or empty; neither
    sends a query or changes the world. *)
Theorem createPermission_forwards_any_name (localeCompare : string -> string -> Z)
    (toLowerCase : string -> string)
    (name : string) (description : option string) (w : World) :
  (∀ reply,
      remoteCalls (snd (createPermission localeCompare name description reply w))
      = remoteCalls w ++ [Insert "permissions" name description])
  ∧ (∀ data,
        fst (createPermission localeCompare name description (Success data) w) = Some data
        ∧ permissions (snd (createPermission localeCompare name description
                              (Success data) w))
          ≡ₚ permissions w ++ [data])
  ∧ (∀ error,
        fst (createPermission localeCompare name description (Failure error) w) = None
        ∧ mirror (snd (createPermission localeCompare name description
                         (Failure error) w)) = mirror w)
  ∧ (∀ formData selected reply,
        blank (f_name formData) ->
        handleSubmit localeCompare formData selected reply w = (tt, w))
  ∧ (∀ response store,
        action response = "create_permission" ->
        present (data response ≫= d_name) = None ->
        executeAction localeCompare toLowerCase response store w
        = ({| success := false; result_message := "Permission name is required" |}, w)).
Proof.
  split; [|split; [|split; [|split]]].
  - intros [d|e]; run; by logs.
  - intros d. run. split; [done|]. apply sortByName_Permutation.
  - intros e. by run.
  - intros formData selected reply Hblank. unfold handleSubmit.
    by rewrite (trim_blank _ Hblank).
  - intros response store Hact Hname. dispatch Hact. by rewrite Hname.
Qed.

(** ** The statements at sample inputs *)

Lemma refresh_fails_as_a_unit_witness :
  (failed (Success (Some [canPublish])) = true
   ∨ failed (A := option (list Role)) (Failure fetchFailed) = true
   ∨ failed (A := option (list RolePermission)) (Success None) = true)
  ∧ mirror (snd (fetchData (Some someUser) (Success (Some [canPublish]))
                   (Failure fetchFailed) (Success None) populated))
    = mirror populated.
Proof.
  split; [right; left; reflexivity|].
  apply (refresh_fails_as_a_unit someUser (Success (Some [canPublish]))
           (Failure fetchFailed) (Success None) populated).
  right; left; reflexivity.
Defined.

Lemma names_stay_sorted_witness :
  consistentComparator codeUnitCompare
  ∧ sortedMirror codeUnitCompare
      (performAll codeUnitCompare
         [CreatePermission "can_delete" None (Success canDelete);
          CreateRole "Content Editor" None (Success editor);
          CreatePermission "Can_publish" None (Success canPublish);
          CreateRole "Admin" None (Failure duplicateKey);
          CreateRole "Admin" None (Success admin);
          DeletePermission "p1" (Success ())]
         initial).
Proof.
  split; [apply codeUnitCompare_consistent|].
  apply (names_stay_sorted codeUnitCompare codeUnitCompare_consistent).
Defined.

Lemma duplicate_assignment_told_by_toast_witness :
  includes (message duplicateKey) "duplicate" = true
  ∧ fst (assignPermissionToRole "r2" "p1" (Failure duplicateKey) populated) = None
  ∧ mirror (snd (assignPermissionToRole "r2" "p1" (Failure duplicateKey) populated))
    = mirror populated
  ∧ toasts (snd (assignPermissionToRole "r2" "p1" (Failure duplicateKey) populated))
    = [alreadyAssignedToast].
Proof.
  split; [reflexivity|].
  apply (duplicate_assignment_told_by_toast "r2" "p1" duplicateKey populated).
  reflexivity.
Defined.

Lemma createPermission_forwards_any_name_witness :
  blank "  "
  ∧ handleSubmit codeUnitCompare {| f_name := "  "; f_description := EmptyString |}
      None (Success blankPermission) populated
    = (tt, populated).
Proof.
  assert (Hblank : blank "  ") by (repeat constructor).
  split; [exact Hblank|].
  apply (createPermission_forwards_any_name codeUnitCompare toLowerCase "  " None populated).
  exact Hblank.
Defined.

Lemma remove_is_idempotent_witness :
  linksOf "r2" "p1" (rolePermissions populated) = []
  ∧ fst (removePermissionFromRole "r2" "p1" (Success ()) populated) = true
  ∧ ∀ reply, mirror (snd (removePermissionFromRole "r2" "p1" reply populated))
             = mirror populated.
Proof.
  split; [reflexivity|].
  apply (remove_is_idempotent "r2" "p1" populated). reflexivity.
Defined.

Lemma unresolved_names_stop_dispatch_witness :
  (action assignViewer = "assign_permission" ∨ action assignViewer = "remove_permission")
  ∧ executeAction codeUnitCompare toLowerCase assignViewer refusing populated
    = ({| success := false;
          result_message := "Role " +:+ quoted "Viewer" +:+ " not found" |}, populated).
Proof.
  split; [left; reflexivity|].
  apply (unresolved_names_stop_dispatch codeUnitCompare toLowerCase assignViewer refusing populated
           (or_introl eq_refl)).
  intros r Hr. apply list_elem_of_In in Hr.
  destruct Hr as [<-|[<-|[]]]; discriminate.
Defined.

Lemma unknown_action_is_info_witness :
  (action deleteRoleAction ∉ ["create_permission"; "create_role"; "assign_permission";
                              "remove_permission"; "info"; "error"])
  ∧ executeAction codeUnitCompare toLowerCase deleteRoleAction refusing populated
    = ({| success := true; result_message := "Deleting roles is not supported" |},
       populated).
Proof.
  assert (Hout : action deleteRoleAction
                 ∉ ["create_permission"; "create_role"; "assign_permission";
                    "remove_permission"; "info"; "error"]).
  { intros Hin. apply list_elem_of_In in Hin. simpl in Hin.
    repeat (destruct Hin as [Hin|Hin]; [discriminate|]). done. }
  split; [exact Hout|].
  apply (unknown_action_is_info codeUnitCompare toLowerCase deleteRoleAction refusing populated Hout).
Defined.

(** ** The scenario of the specification *)

Example scenario_permissions_of_role :
  p_name <$> getPermissionsForRole afterScenario "r9" = ["can_publish_content"].
Proof. reflexivity. Qed.

Example scenario_roles_of_permission :
  r_name <$> getRolesForPermission afterScenario "p9" = ["Marketing Manager"].
Proof. reflexivity. Qed.

Example scenario_queries_sent :
  remoteCalls afterScenario
  = [Insert "roles" "Marketing Manager" None;
     Insert "permissions" "can_publish_content" None;
     InsertLink "r9" "p9"].
Proof. reflexivity. Qed.

(** Code units put the capital first. *)
Example sorted_by_code_units :
  p_name <$> permissions
     (performAll codeUnitCompare
        [CreatePermission "can_delete" None (Success canDelete);
         CreatePermission "Can_publish" None (Success canPublish)]
        initial)
  = ["Can_publish"; "can_delete"].
Proof. reflexivity. Qed.

Example second_assignment_refused :
  linksOf "r9" "p9"
    (rolePermissions
       (performAll codeUnitCompare
          [AssignPermissionToRole "r9" "p9" (Failure duplicateKey)] afterScenario))
  = [managerCanPublish].
Proof. reflexivity. Qed.

(** ** Where the code departs from the wording *)

(** C5: a duplicate and any other refusal hand the same value back. *)
Lemma assign_returns_null_on_every_refusal :
  includes (message duplicateKey) "duplicate" = true
  ∧ includes (message fetchFailed) "duplicate" = false
  ∧ fst (assignPermissionToRole "r1" "p1" (Failure duplicateKey) populated)
    = fst (assignPermissionToRole "r1" "p1" (Failure fetchFailed) populated).
Proof. repeat split. Qed.

(** C6: a name of two spaces is sent to the store and, once accepted, is in
    the mirror; so is the empty name. *)
Lemma createPermission_sends_blank_names :
  blank "  "
  ∧ remoteCalls (snd (createPermission codeUnitCompare "  " None
                        (Success blankPermission) initial))
    = [Insert "permissions" "  " None]
  ∧ permissions (snd (createPermission codeUnitCompare "  " None
                        (Success blankPermission) initial))
    = [blankPermission]
  ∧ remoteCalls (snd (createPermission codeUnitCompare EmptyString None
                        (Failure fetchFailed) initial))
    = [Insert "permissions" EmptyString None].
Proof. split; [repeat constructor | repeat split]. Qed.

(** C9: the role [Viewer] has no match, the permission name is empty, and
    the answer does not name the role. *)
Lemma empty_name_is_not_reported_as_not_found :
  (∀ r, r ∈ roles populated -> toLowerCase (r_name r) ≠ toLowerCase "Viewer")
  ∧ executeAction codeUnitCompare toLowerCase assignViewerNothing refusing populated
    = ({| success := false;
          result_message := "Both role name and permission name are required" |},
       populated)
  ∧ "Both role name and permission name are required"
    ≠ ("Role " +:+ quoted "Viewer" +:+ " not found").
Proof.
  split; [|split; [reflexivity | discriminate]].
  intros r Hr. apply list_elem_of_In in Hr.
  destruct Hr as [<-|[<-|[]]]; discriminate.
Qed.

(** C3: a refresh with a failed read hands back to its caller what a
    refresh without failure hands back; the toast is where they differ. *)
Lemma refresh_hands_nothing_back :
  failed (A := option (list Role)) (Failure fetchFailed) = true
  ∧ fst (fetchData (Some someUser) (Success (Some [canPublish])) (Failure fetchFailed)
           (Success None) populated)
    = fst (fetchData (Some someUser) (Success (Some [canPublish])) (Success None)
             (Success None) populated)
  ∧ toasts (snd (fetchData (Some someUser) (Success (Some [canPublish]))
                   (Failure fetchFailed) (Success None) populated))
    = [loadErrorToast]
  ∧ toasts (snd (fetchData (Some someUser) (Success (Some [canPublish])) (Success None)
                   (Success None) populated))
    = [].
Proof. repeat split. Qed.

(** C4: with a comparator that puts letters before case, as hosts do, the
    permission [can_delete] comes before [Can_publish]; by code units it
    comes after. *)

Lemma string_compare_refl (s : string) : String.compare s s = Eq.
Proof.
  induction s as [|c s IH]; [done|]. cbn.
  unfold Ascii.compare. by rewrite N.compare_refl.
Qed.

Lemma collate_le (a b : string) :
  (collate a b <= 0)%Z
  ↔ String.compare (toLowerCase a) (toLowerCase b) = Lt
    ∨ (toLowerCase a = toLowerCase b ∧ String.compare b a ≠ Gt).
Proof.
  unfold collate.
  destruct (String.compare (toLowerCase a) (toLowerCase b)) eqn:E.
  - apply String.compare_eq_iff in E. rewrite codeUnitCompare_le.
    split; [by right | by intros [?|[_ ?]]].
  - split; [by left | lia].
  - split; [lia|]. intros [?|[Heq _]]; [done|].
    rewrite Heq, string_compare_refl in E. discriminate.
Qed.

Lemma string_compare_lt_trans (a b c : string) :
  String.compare a b = Lt -> String.compare b c = Lt -> String.compare a c = Lt.
Proof.
  intros Hab Hbc.
  assert (Hac : String.compare a c ≠ Gt)
    by (apply (string_compare_trans a b c); congruence).
  destruct (String.compare a c) eqn:E; [|done|done].
  apply String.compare_eq_iff in E as ->.
  rewrite String.compare_antisym, Hbc in Hab. discriminate.
Qed.

Lemma collate_consistent : consistentComparator collate.
Proof.
  split.
  - intros a b. rewrite !collate_le.
    destruct (String.compare (toLowerCase a) (toLowerCase b)) eqn:E.
    + apply String.compare_eq_iff in E.
      destruct (String.compare b a) eqn:Eba.
      * left. right. split; [done | congruence].
      * left. right. split; [done | congruence].
      * right. right. split; [done|].
        rewrite String.compare_antisym, Eba. discriminate.
    + by left; left.
    + right. left. by rewrite String.compare_antisym, E.
  - intros a b c. rewrite !collate_le.
    intros [Hab|[Hab Hba]] [Hbc|[Hbc Hcb]].
    + left. by apply (string_compare_lt_trans _ (toLowerCase b)).
    + left. by rewrite <- Hbc.
    + left. by rewrite Hab.
    + right. split; [congruence|]. by apply (string_compare_trans c b a).
Qed.

Lemma names_follow_the_collation_of_the_host :
  consistentComparator collate
  ∧ p_name <$> permissions
       (performAll collate
          [CreatePermission "Can_publish" None (Success canPublish);
           CreatePermission "can_delete" None (Success canDelete)]
          initial)
    = ["can_delete"; "Can_publish"]
  ∧ codeUnitCompare "can_delete" "Can_publish" = 1%Z.
Proof. split; [apply collate_consistent | split; reflexivity]. Qed.

(** Rows of one name keep the order in which they came. *)
Example sort_keeps_equal_names_in_order :
  permissions
    (performAll codeUnitCompare
       [CreatePermission "can_delete" None (Success canDelete);
        CreatePermission "Can_publish" None (Success canPublish);
        CreatePermission "can_delete" None (Success canDeleteTwin)]
       initial)
  = [canPublish; canDelete; canDeleteTwin].
Proof. reflexivity. Qed.

(** * More of the hook *)

(** ** Refresh *)

(** X1. A refresh whose three reads succeed replaces the three collections
    by the rows read, an absent array counting as empty, whatever the
    collections held before; it sends the three queries, raises no toast
    and resets [loading].  Without a signed-in user a refresh does nothing:
    no query, no toast, and [loading] keeps its value. *)
Theorem refresh_replaces_mirror (someone : User)
    (permData : option (list Permission)) (roleData : option (list Role))
    (rpData : option (list RolePermission))
    (permRes : PostgrestResponse (option (list Permission)))
    (roleRes : PostgrestResponse (option (list Role)))
    (rpRes : PostgrestResponse (option (list RolePermission)))
    (w : World) :
  let w' := snd (fetchData (Some someone) (Success permData) (Success roleData)
                   (Success rpData) w) in
  (mirror w' = (default [] permData, default [] roleData, default [] rpData)
   ∧ log w' = log w ++ (Remote <$> refreshQueries)
   ∧ loading w' = false)
  ∧ fetchData None permRes roleRes rpRes w = (tt, w).
Proof.
  unfold fetchData, fetchData_try. run. repeat split.
  by rewrite <- !app_assoc.
Qed.

(** ** One query, one toast *)

(** X2. Each of the eight mutating operations, on every reply, appends to
    the log exactly its one query followed by exactly one toast, which is
    destructive when the store refused and plain otherwise; it does not
    touch [loading]. *)
Theorem one_query_then_one_toast (localeCompare : string -> string -> Z)
    (c : Call) (w : World) :
  (∃ t, log (snd (perform localeCompare c w)) = log w ++ [Remote (queryOf c); Toasted t]
        ∧ variant t = if remoteFailed c then Destructive else Default)
  ∧ loading (snd (perform localeCompare c w)) = loading w.
Proof.
  destruct c as [n d [x|e] | i n d [x|e] | i [[]|e] | n d [x|e] | i n d [x|e]
                | i [[]|e] | r p [x|e] | r p [[]|e]];
    cbn [remoteFailed failed error_of perform queryOf]; run;
    try (destruct (includes _ _); run);
    (split; [|done]); eexists; rewrite <- app_assoc; split; reflexivity.
Qed.

(** ** Updates of rows the mirror does not hold *)

Lemma replace_members {A} (key : A -> string) (id : string) (d : A) (l : list A) (x : A) :
  x ∈ (fun y => if decide (key y = id) then d else y) <$> l
  ↔ (x = d ∧ ∃ y, y ∈ l ∧ key y = id) ∨ (x ∈ l ∧ key x ≠ id).
Proof.
  rewrite list_elem_of_fmap. split.
  - intros (y & -> & Hy). case_decide; [left; eauto | right; eauto].
  - intros [[-> (y & Hy & Hid)] | [Hx Hne]].
    + exists y. by rewrite decide_True.
    + exists x. by rewrite decide_False.
Qed.

Lemma replace_absent {A} (key : A -> string) (id : string) (d : A) (l : list A) :
  (∀ y, y ∈ l -> key y ≠ id) ->
  (fun y => if decide (key y = id) then d else y) <$> l = l.
Proof.
  intros Habs. induction l as [|a l IH]; [done|].
  cbn. rewrite decide_False by (apply Habs; left).
  f_equal. apply IH. intros y Hy. apply Habs. by right.
Qed.

Lemma updatePermission_accepted (localeCompare : string -> string -> Z)
    (id name : string) (description : option string) (data : Permission) (w : World) :
  fst (updatePermission localeCompare id name description (Success data) w) = Some data
  ∧ permissions (snd (updatePermission localeCompare id name description (Success data) w))
    ≡ₚ (fun p => if decide (p_id p = id) then data else p) <$> permissions w.
Proof.
  run. split; [done|].
  by rewrite sortByName_Permutation, map_replace.
Qed.

Lemma updateRole_accepted (localeCompare : string -> string -> Z)
    (id name : string) (description : option string) (data : Role) (w : World) :
  fst (updateRole localeCompare id name description (Success data) w) = Some data
  ∧ roles (snd (updateRole localeCompare id name description (Success data) w))
    ≡ₚ (fun r => if decide (r_id r = id) then data else r) <$> roles w.
Proof.
  run. split; [done|].
  by rewrite sortByName_Permutation, map_replace.
Qed.

(** X3. An accepted [updatePermission] never changes the number of
    permissions.  Afterwards the array holds the returned row in place of
    every row that had the id, and the other rows; when no row has the id,
    the call still returns the row of the store but the array keeps its
    rows: the row is not added.  The same holds of [updateRole]. *)
Theorem update_replaces_and_never_adds (localeCompare : string -> string -> Z)
    (id name : string) (description : option string) (w : World) :
  (∀ data : Permission,
      let r := updatePermission localeCompare id name description (Success data) w in
      fst r = Some data
      ∧ length (permissions (snd r)) = length (permissions w)
      ∧ (∀ p, p ∈ permissions (snd r)
              ↔ (p = data ∧ ∃ q, q ∈ permissions w ∧ p_id q = id)
                ∨ (p ∈ permissions w ∧ p_id p ≠ id))
      ∧ ((∀ q, q ∈ permissions w -> p_id q ≠ id) ->
         permissions (snd r) ≡ₚ permissions w))
  ∧ (∀ data : Role,
        let r := updateRole localeCompare id name description (Success data) w in
        fst r = Some data
        ∧ length (roles (snd r)) = length (roles w)
        ∧ (∀ x, x ∈ roles (snd r)
                ↔ (x = data ∧ ∃ q, q ∈ roles w ∧ r_id q = id)
                  ∨ (x ∈ roles w ∧ r_id x ≠ id))
        ∧ ((∀ q, q ∈ roles w -> r_id q ≠ id) -> roles (snd r) ≡ₚ roles w)).
Proof.
  split; intros data r.
  - destruct (updatePermission_accepted localeCompare id name description data w)
      as [Hret Hperm].
    fold r in Hret, Hperm. split; [done|]. split; [|split].
    + by rewrite Hperm, length_fmap.
    + intros p. rewrite Hperm. apply replace_members.
    + intros Habs. by rewrite Hperm, replace_absent.
  - destruct (updateRole_accepted localeCompare id name description data w)
      as [Hret Hperm].
    fold r in Hret, Hperm. split; [done|]. split; [|split].
    + by rewrite Hperm, length_fmap.
    + intros p. rewrite Hperm. apply replace_members.
    + intros Habs. by rewrite Hperm, replace_absent.
Qed.

(** ** Links and the derived queries *)

Lemma assign_links (roleId permissionId : string) (data : RolePermission) (w : World) :
  permissions (snd (assignPermissionToRole roleId permissionId (Success data) w))
  = permissions w
  ∧ roles (snd (assignPermissionToRole roleId permissionId (Success data) w)) = roles w
  ∧ rolePermissions (snd (assignPermissionToRole roleId permissionId (Success data) w))
    = rolePermissions w ++ [data].
Proof. by run. Qed.

Lemma remove_links (roleId permissionId : string) (w : World) :
  permissions (snd (removePermissionFromRole roleId permissionId (Success ()) w))
  = permissions w
  ∧ roles (snd (removePermissionFromRole roleId permissionId (Success ()) w)) = roles w
  ∧ rolePermissions (snd (removePermissionFromRole roleId permissionId (Success ()) w))
    = filter (fun rp => ¬ (role_id rp = roleId ∧ permission_id rp = permissionId))
             (rolePermissions w).
Proof. run. repeat split. apply filter_not_pair. Qed.

Lemma filter_same {A} (P Q : A -> Prop) `{!∀ x, Decision (P x)} `{!∀ x, Decision (Q x)}
    (l : list A) :
  (∀ x, x ∈ l -> (P x ↔ Q x)) -> filter P l = filter Q l.
Proof.
  induction l as [|a l IH]; [done|]. intros Hall.
  assert (Ha : P a ↔ Q a) by (apply Hall; left).
  rewrite !filter_cons.
  rewrite IH by (intros x Hx; apply Hall; by right).
  destruct (decide (P a)), (decide (Q a)); tauto || done.
Qed.

Lemma grants_app rps data roleId p :
  grants (rps ++ [data]) roleId p
  ↔ grants rps roleId p ∨ (role_id data = roleId ∧ permission_id data = p_id p).
Proof.
  unfold grants. rewrite Exists_app, Exists_cons, Exists_nil. tauto.
Qed.

Lemma grantedTo_app rps data permissionId r :
  grantedTo (rps ++ [data]) permissionId r
  ↔ grantedTo rps permissionId r ∨ (permission_id data = permissionId ∧ role_id data = r_id r).
Proof.
  unfold grantedTo. rewrite Exists_app, Exists_cons, Exists_nil. tauto.
Qed.

(** X4. After an accepted [assignPermissionToRole] that returned a link of
    the two ids, [getPermissionsForRole] of the role lists what it listed
    before and the permissions with that id, [getRolesForPermission] of the
    permission lists what it listed before and the roles with that id, and
    the queries about every other role and permission answer as before. *)
Theorem assignment_shows_in_queries (roleId permissionId : string)
    (data : RolePermission) (w : World) :
  role_id data = roleId -> permission_id data = permissionId ->
  let w' := snd (assignPermissionToRole roleId permissionId (Success data) w) in
  (∀ p, p ∈ getPermissionsForRole w' roleId
        ↔ p ∈ getPermissionsForRole w roleId ∨ (p ∈ permissions w ∧ p_id p = permissionId))
  ∧ (∀ r, r ∈ getRolesForPermission w' permissionId
          ↔ r ∈ getRolesForPermission w permissionId ∨ (r ∈ roles w ∧ r_id r = roleId))
  ∧ (∀ other, other ≠ roleId ->
              getPermissionsForRole w' other = getPermissionsForRole w other)
  ∧ (∀ other, other ≠ permissionId ->
              getRolesForPermission w' other = getRolesForPermission w other).
Proof.
  intros Hr Hp w'.
  destruct (assign_links roleId permissionId data w) as (Eps & Ers & Erps).
  fold w' in Eps, Ers, Erps.
  split; [|split; [|split]].
  - intros p. rewrite !getPermissionsForRole_filter, !list_elem_of_filter.
    rewrite Eps, Erps, grants_app. intuition congruence.
  - intros r. rewrite !getRolesForPermission_filter, !list_elem_of_filter.
    rewrite Ers, Erps, grantedTo_app. intuition congruence.
  - intros other Hne. rewrite !getPermissionsForRole_filter, Eps, Erps.
    apply filter_same. intros p _. rewrite grants_app. intuition congruence.
  - intros other Hne. rewrite !getRolesForPermission_filter, Ers, Erps.
    apply filter_same. intros r _. rewrite grantedTo_app. intuition congruence.
Qed.

Lemma grants_filter_pair rps roleId permissionId other p :
  grants (filter (fun rp => ¬ (role_id rp = roleId ∧ permission_id rp = permissionId)) rps)
         other p
  ↔ grants rps other p ∧ ¬ (other = roleId ∧ p_id p = permissionId).
Proof.
  unfold grants. rewrite !Exists_exists. split.
  - intros (rp & Hin & Hr & Hp). apply list_elem_of_filter in Hin as [Hne Hin].
    split; [eauto|]. intros [-> Hid]. apply Hne. split; congruence.
  - intros [(rp & Hin & Hr & Hp) Hne]. exists rp. split; [|done].
    apply list_elem_of_filter. split; [|done]. intros [Hr' Hp']. apply Hne.
    split; congruence.
Qed.

Lemma grantedTo_filter_pair rps roleId permissionId other r :
  grantedTo (filter (fun rp => ¬ (role_id rp = roleId ∧ permission_id rp = permissionId))
                    rps) other r
  ↔ grantedTo rps other r ∧ ¬ (r_id r = roleId ∧ other = permissionId).
Proof.
  unfold grantedTo. rewrite !Exists_exists. split.
  - intros (rp & Hin & Hp & Hr). apply list_elem_of_filter in Hin as [Hne Hin].
    split; [eauto|]. intros [Hid ->]. apply Hne. split; congruence.
  - intros [(rp & Hin & Hp & Hr) Hne]. exists rp. split; [|done].
    apply list_elem_of_filter. split; [|done]. intros [Hr' Hp']. apply Hne.
    split; congruence.
Qed.

(** X5. After an accepted [removePermissionFromRole],
    [getPermissionsForRole] of the role lists what it listed before except
    the permissions with the removed id, [getRolesForPermission] of the
    permission lists what it listed before except the roles with the role's
    id, and the queries about every other role and permission answer as
    before. *)
Theorem removal_shows_in_queries (roleId permissionId : string) (w : World) :
  let w' := snd (removePermissionFromRole roleId permissionId (Success ()) w) in
  (∀ p, p ∈ getPermissionsForRole w' roleId
        ↔ p ∈ getPermissionsForRole w roleId ∧ p_id p ≠ permissionId)
  ∧ (∀ r, r ∈ getRolesForPermission w' permissionId
          ↔ r ∈ getRolesForPermission w permissionId ∧ r_id r ≠ roleId)
  ∧ (∀ other, other ≠ roleId ->
              getPermissionsForRole w' other = getPermissionsForRole w other)
  ∧ (∀ other, other ≠ permissionId ->
              getRolesForPermission w' other = getRolesForPermission w other).
Proof.
  intros w'.
  destruct (remove_links roleId permissionId w) as (Eps & Ers & Erps).
  fold w' in Eps, Ers, Erps.
  split; [|split; [|split]].
  - intros p. rewrite !getPermissionsForRole_filter, !list_elem_of_filter.
    rewrite Eps, Erps, grants_filter_pair. intuition congruence.
  - intros r. rewrite !getRolesForPermission_filter, !list_elem_of_filter.
    rewrite Ers, Erps, grantedTo_filter_pair. intuition congruence.
  - intros other Hne. rewrite !getPermissionsForRole_filter, Eps, Erps.
    apply filter_same. intros p _. rewrite grants_filter_pair. intuition congruence.
  - intros other Hne. rewrite !getRolesForPermission_filter, Ers, Erps.
    apply filter_same. intros r _. rewrite grantedTo_filter_pair. intuition congruence.
Qed.

Lemma filter_all {A} (P : A -> Prop) `{!∀ x, Decision (P x)} (l : list A) :
  (∀ x, x ∈ l -> P x) -> filter P l = l.
Proof.
  induction l as [|a l IH]; [done|]. intros Hall.
  rewrite filter_cons_True by (apply Hall; left).
  f_equal. apply IH. intros x Hx. apply Hall. by right.
Qed.

Lemma linksOf_nil roleId permissionId rps :
  linksOf roleId permissionId rps = []
  ↔ ∀ rp, rp ∈ rps -> ¬ (role_id rp = roleId ∧ permission_id rp = permissionId).
Proof.
  unfold linksOf. split.
  - intros Hnil rp Hin Hpair.
    assert (Hrp : rp ∈ filter (fun rp => role_id rp = roleId
                                          ∧ permission_id rp = permissionId) rps)
      by (by apply list_elem_of_filter).
    rewrite Hnil in Hrp. by apply not_elem_of_nil in Hrp.
  - intros Hno. by apply filter_none.
Qed.

(** X6. When the mirror holds no link of the pair, an accepted
    [assignPermissionToRole] that returned a link of the two ids, followed
    by an accepted [removePermissionFromRole] of the pair, gives back the
    three collections as they were. *)
Theorem assign_then_remove_restores (roleId permissionId : string)
    (data : RolePermission) (w : World) :
  role_id data = roleId -> permission_id data = permissionId ->
  linksOf roleId permissionId (rolePermissions w) = [] ->
  mirror (snd (removePermissionFromRole roleId permissionId (Success ())
                 (snd (assignPermissionToRole roleId permissionId (Success data) w))))
  = mirror w.
Proof.
  intros Hr Hp Hnone.
  set (w1 := snd (assignPermissionToRole roleId permissionId (Success data) w)).
  destruct (assign_links roleId permissionId data w) as (Aps & Ars & Arps).
  destruct (remove_links roleId permissionId w1) as (Rps & Rrs & Rrps).
  fold w1 in Aps, Ars, Arps. unfold mirror.
  rewrite Rps, Rrs, Rrps, Aps, Ars, Arps. f_equal.
  rewrite filter_app, filter_cons_False, filter_nil, app_nil_r by tauto.
  apply filter_all. by apply linksOf_nil.
Qed.

(** X7. When the mirror already holds a link of the pair, one more accepted
    [assignPermissionToRole] of the pair lengthens the array of links by
    the returned row but changes the answer of no derived query: a link
    held twice shows once. *)
Theorem second_link_is_invisible (roleId permissionId : string)
    (data : RolePermission) (w : World) :
  role_id data = roleId -> permission_id data = permissionId ->
  linksOf roleId permissionId (rolePermissions w) ≠ [] ->
  let w' := snd (assignPermissionToRole roleId permissionId (Success data) w) in
  rolePermissions w' = rolePermissions w ++ [data]
  ∧ (∀ r, getPermissionsForRole w' r = getPermissionsForRole w r)
  ∧ (∀ p, getRolesForPermission w' p = getRolesForPermission w p).
Proof.
  intros Hr Hp Hsome w'.
  destruct (assign_links roleId permissionId data w) as (Eps & Ers & Erps).
  fold w' in Eps, Ers, Erps.
  assert (Hheld : Exists (fun rp => role_id rp = roleId ∧ permission_id rp = permissionId)
                         (rolePermissions w)).
  { destruct (linksOf roleId permissionId (rolePermissions w)) as [|rp l] eqn:E; [done|].
    assert (Hin : rp ∈ linksOf roleId permissionId (rolePermissions w))
      by (rewrite E; left).
    apply list_elem_of_filter in Hin as [Hpair Hin].
    apply Exists_exists. eauto. }
  apply Exists_exists in Hheld as (rp & Hin & Hrr & Hpp).
  split; [done|]. split.
  - intros r. rewrite !getPermissionsForRole_filter, Eps, Erps.
    apply filter_same. intros p _. rewrite grants_app. split; [|tauto].
    intros [H|[H1 H2]]; [done|].
    apply Exists_exists. exists rp. split; [done|]. split; congruence.
  - intros p. rewrite !getRolesForPermission_filter, Ers, Erps.
    apply filter_same. intros r _. rewrite grantedTo_app. split; [|tauto].
    intros [H|[H1 H2]]; [done|].
    apply Exists_exists. exists rp. split; [done|]. split; congruence.
Qed.

(** ** Deleting twice, deleting in either order *)

Lemma deletePermission_mirror (id : string) (w : World) :
  mirror (snd (deletePermission id (Success ()) w))
  = (filter (fun p => p_id p ≠ id) (permissions w), roles w,
     filter (fun rp => permission_id rp ≠ id) (rolePermissions w)).
Proof.
  destruct (deletePermission_success id w) as (_ & E1 & E2 & E3).
  unfold mirror. by rewrite E1, E2, E3.
Qed.

Lemma deleteRole_mirror (id : string) (w : World) :
  mirror (snd (deleteRole id (Success ()) w))
  = (permissions w, filter (fun r => r_id r ≠ id) (roles w),
     filter (fun rp => role_id rp ≠ id) (rolePermissions w)).
Proof.
  destruct (deleteRole_success id w) as (_ & E1 & E2 & E3).
  unfold mirror. by rewrite E1, E2, E3.
Qed.

Lemma mirror_parts (w : World) ps rs rps :
  mirror w = (ps, rs, rps) -> permissions w = ps ∧ roles w = rs ∧ rolePermissions w = rps.
Proof. unfold mirror. intros [= -> -> ->]. done. Qed.

(** X8. Accepted deletes are idempotent and commute on the three
    collections: deleting the same permission (or role) twice leaves what
    one delete leaves, and two deletes, of permissions or of roles, give the
    same collections in either order. *)
Theorem deletes_idempotent_and_commute (a b : string) (w : World) :
  let delP id w := snd (deletePermission id (Success ()) w) in
  let delR id w := snd (deleteRole id (Success ()) w) in
  mirror (delP a (delP a w)) = mirror (delP a w)
  ∧ mirror (delR b (delR b w)) = mirror (delR b w)
  ∧ mirror (delR b (delP a w)) = mirror (delP a (delR b w))
  ∧ mirror (delP b (delP a w)) = mirror (delP a (delP b w))
  ∧ mirror (delR b (delR a w)) = mirror (delR a (delR b w)).
Proof.
  cbv zeta.
  destruct (mirror_parts _ _ _ _ (deletePermission_mirror a w)) as (Pa1 & Pa2 & Pa3).
  destruct (mirror_parts _ _ _ _ (deletePermission_mirror b w)) as (Pb1 & Pb2 & Pb3).
  destruct (mirror_parts _ _ _ _ (deleteRole_mirror a w)) as (Ra1 & Ra2 & Ra3).
  destruct (mirror_parts _ _ _ _ (deleteRole_mirror b w)) as (Rb1 & Rb2 & Rb3).
  rewrite !deletePermission_mirror, !deleteRole_mirror.
  rewrite Pa1, Pa2, Pa3, Pb1, Pb2, Pb3, Ra1, Ra2, Ra3, Rb1, Rb2, Rb3.
  rewrite !list_filter_filter.
  repeat split; f_equal; try f_equal; try done; apply filter_same; intros; tauto.
Qed.

(** ** Links that point into the mirror *)

Lemma integrity_mono (w w' : World) :
  (∀ x, x ∈ r_id <$> roles w -> x ∈ r_id <$> roles w') ->
  (∀ x, x ∈ p_id <$> permissions w -> x ∈ p_id <$> permissions w') ->
  (∀ rp, rp ∈ rolePermissions w' -> rp ∈ rolePermissions w) ->
  integrity w -> integrity w'.
Proof.
  intros Hr Hp Hl Hw rp Hin. destruct (Hw rp (Hl rp Hin)). split; auto.
Qed.

Lemma sorted_ids {A} (localeCompare : string -> string -> Z) (name key : A -> string)
    (l : list A) (x : string) :
  x ∈ key <$> sortByName localeCompare name l ↔ x ∈ key <$> l.
Proof. by rewrite sortByName_Permutation. Qed.

Lemma replaced_ids {A} (key : A -> string) (id : string) (d : A) (l : list A) :
  key d = id ->
  key <$> map (fun x => if String.eqb (key x) id then d else x) l = key <$> l.
Proof.
  intros Hd. rewrite map_replace, <- list_fmap_compose.
  apply list_fmap_ext. intros _ x _. cbn. by case_decide; congruence.
Qed.

Lemma perform_keeps_integrity (localeCompare : string -> string -> Z)
    (c : Call) (w : World) :
  integrity w -> echoes c w -> integrity (snd (perform localeCompare c w)).
Proof.
  intros Hw Hecho.
  destruct c as [n d [x|e] | i n d [x|e] | i [[]|e] | n d [x|e] | i n d [x|e]
                | i [[]|e] | r p [x|e] | r p [[]|e]];
    cbn [perform echoes] in *; run;
    try (destruct (includes _ _); run);
    try (by apply (integrity_mono w); cbn [roles permissions rolePermissions]).
  - (* createPermission *)
    apply (integrity_mono w); cbn [roles permissions rolePermissions]; try done.
    intros y Hy. rewrite sorted_ids, fmap_app, elem_of_app. by left.
  - (* updatePermission *)
    apply (integrity_mono w); cbn [roles permissions rolePermissions]; try done.
    intros y Hy. by rewrite sorted_ids, replaced_ids.
  - (* deletePermission *)
    intros rp Hin. cbn [roles permissions rolePermissions] in *.
    apply list_elem_of_In, filter_In in Hin as [Hin Hne].
    apply list_elem_of_In in Hin. apply negb_eqb_true_iff in Hne.
    destruct (Hw rp Hin) as [Hr Hp]. split; [done|].
    apply list_elem_of_fmap in Hp as (q & Hq & Hqin).
    apply list_elem_of_fmap. exists q. split; [done|].
    apply list_elem_of_In, filter_In. split; [by apply list_elem_of_In|].
    apply negb_eqb_true_iff. congruence.
  - (* createRole *)
    apply (integrity_mono w); cbn [roles permissions rolePermissions]; try done.
    intros y Hy. rewrite sorted_ids, fmap_app, elem_of_app. by left.
  - (* updateRole *)
    apply (integrity_mono w); cbn [roles permissions rolePermissions]; try done.
    intros y Hy. by rewrite sorted_ids, replaced_ids.
  - (* deleteRole *)
    intros rp Hin. cbn [roles permissions rolePermissions] in *.
    apply list_elem_of_In, filter_In in Hin as [Hin Hne].
    apply list_elem_of_In in Hin. apply negb_eqb_true_iff in Hne.
    destruct (Hw rp Hin) as [Hr Hp]. split; [|done].
    apply list_elem_of_fmap in Hr as (q & Hq & Hqin).
    apply list_elem_of_fmap. exists q. split; [done|].
    apply list_elem_of_In, filter_In. split; [by apply list_elem_of_In|].
    apply negb_eqb_true_iff. congruence.
  - (* assignPermissionToRole *)
    destruct Hecho as (Hr & Hp & Hrin & Hpin).
    intros rp Hin. cbn [roles permissions rolePermissions] in *.
    apply elem_of_app in Hin as [Hin|Hin]; [by apply Hw|].
    apply list_elem_of_singleton in Hin as ->. by rewrite Hr, Hp.
  - (* removePermissionFromRole *)
    apply (integrity_mono w); cbn [roles permissions rolePermissions]; try done.
    intros rp Hin. by apply list_elem_of_In, filter_In in Hin as [Hin%list_elem_of_In _].
Qed.

(** X9. Referential integrity of the mirror is kept by every mutating call,
    accepted or refused, as long as the store hands back the row the call
    was about: if every link refers to a role and to a permission of the
    mirror before the call, so it does afterwards.  In particular a delete
    leaves no link behind, and an update or a create orphans none. *)
Theorem integrity_kept (localeCompare : string -> string -> Z) (c : Call) (w : World) :
  integrity w -> echoes c w -> integrity (snd (perform localeCompare c w)).
Proof. apply perform_keeps_integrity. Qed.

(** * More of the dispatcher *)

Ltac cases_of_action response :=
  unfold executeAction;
  repeat match goal with
  | |- context [String.eqb (action response) ?s] =>
      destruct (String.eqb (action response) s)
  end.

Lemma executeAction_outcome (localeCompare : string -> string -> Z)
    (toLowerCase : string -> string)
    (response : AIResponse) (store : StoreReplies) (w : World) :
  (success (fst (executeAction localeCompare toLowerCase response store w)) = false ->
   mirror (snd (executeAction localeCompare toLowerCase response store w)) = mirror w)
  ∧ (snd (executeAction localeCompare toLowerCase response store w) = w
     ∨ ∃ q, remoteCalls (snd (executeAction localeCompare toLowerCase response store w))
            = remoteCalls w ++ [q]).
Proof.
  cases_of_action response.
  all: repeat first [ progress run | case_match ]; simplify_eq.
  all: split; [by intros | ].
  all: first [ by left | right; eexists; by logs ].
Qed.

(** X10. Whatever the action and whatever the store answers: when
    [executeAction] reports [success: false] the three collections are as
    they were, and either the world is untouched altogether (no query, no
    toast) or exactly one query has been sent. *)
Theorem failed_action_changes_nothing (localeCompare : string -> string -> Z)
    (toLowerCase : string -> string)
    (response : AIResponse) (store : StoreReplies) (w : World) :
  let result := executeAction localeCompare toLowerCase response store w in
  (success (fst result) = false -> mirror (snd result) = mirror w)
  ∧ (snd result = w ∨ ∃ q, remoteCalls (snd result) = remoteCalls w ++ [q]).
Proof. apply executeAction_outcome. Qed.

(** X11. For a [create_permission] or [create_role] action whose name is
    present and not empty, the dispatcher does what [createPermission] or
    [createRole] does with the name as the model gave it (it is not
    trimmed), and reports [success: true] exactly when the store accepted
    the row. *)
Theorem create_action_reports_store (localeCompare : string -> string -> Z)
    (toLowerCase : string -> string)
    (response : AIResponse) (store : StoreReplies) (w : World) (name : string) :
  present (data response ≫= d_name) = Some name ->
  (action response = "create_permission" ->
   let created := createPermission localeCompare name (data response ≫= d_description)
                    (permissionInserted store) w in
   snd (executeAction localeCompare toLowerCase response store w) = snd created
   ∧ success (fst (executeAction localeCompare toLowerCase response store w))
     = negb (failed (permissionInserted store))
   ∧ remoteCalls (snd created)
     = remoteCalls w ++ [Insert "permissions" name (data response ≫= d_description)])
  ∧ (action response = "create_role" ->
     let created := createRole localeCompare name (data response ≫= d_description)
                      (roleInserted store) w in
     snd (executeAction localeCompare toLowerCase response store w) = snd created
     ∧ success (fst (executeAction localeCompare toLowerCase response store w))
       = negb (failed (roleInserted store))
     ∧ remoteCalls (snd created)
       = remoteCalls w ++ [Insert "roles" name (data response ≫= d_description)]).
Proof.
  intros Hname. split; intros Hact created; subst created; dispatch Hact;
    rewrite Hname.
  - destruct (permissionInserted store) as [d|e]; run; repeat split; by logs.
  - destruct (roleInserted store) as [d|e]; run; repeat split; by logs.
Qed.

(** X12. The names of an assignment or a removal count up to case only:
    two actions of the same kind whose role names, and whose permission
    names, have the same lower-case form lead to the same query, the same
    toast and the same collections, and succeed or fail together. *)
Theorem names_count_up_to_case (localeCompare : string -> string -> Z)
    (toLowerCase : string -> string)
    (first second : AIResponse) (store : StoreReplies) (w : World)
    (role1 role2 permission1 permission2 : string) :
  action first = action second ->
  action first = "assign_permission" ∨ action first = "remove_permission" ->
  present (data first ≫= d_role_name) = Some role1 ->
  present (data second ≫= d_role_name) = Some role2 ->
  present (data first ≫= d_permission_name) = Some permission1 ->
  present (data second ≫= d_permission_name) = Some permission2 ->
  toLowerCase role1 = toLowerCase role2 ->
  toLowerCase permission1 = toLowerCase permission2 ->
  snd (executeAction localeCompare toLowerCase first store w)
  = snd (executeAction localeCompare toLowerCase second store w)
  ∧ success (fst (executeAction localeCompare toLowerCase first store w))
    = success (fst (executeAction localeCompare toLowerCase second store w)).
Proof.
  intros Hsame Hact Hr1 Hr2 Hp1 Hp2 Hr Hp.
  assert (Hact2 : action second = "assign_permission"
                  ∨ action second = "remove_permission") by (by rewrite <- Hsame).
  destruct Hact as [H1|H1], Hact2 as [H2|H2]; try congruence; clear Hsame;
    unfold executeAction; rewrite H1, H2; cbn [String.eqb Ascii.eqb Bool.eqb];
    rewrite Hr1, Hr2, Hp1, Hp2, Hr, Hp; run;
    destruct (find _ (roles w)); [|done|..|done];
    (destruct (find _ (permissions w)); [|done]).
  - destruct (linkInserted store); run; [|destruct (includes _ _); run]; done.
  - destruct (linkDeleted store) as [[]|]; by run.
Qed.

(** X13. The dispatcher never leaves a dangling link: if every link of the
    mirror refers to a role and a permission of the mirror, and the store,
    when it accepts the insert of a link, returns a link of the two ids it
    was asked to insert, then after any action every link still does.  The
    ids the dispatcher sends are ids it found in the mirror. *)
Theorem dispatch_keeps_integrity (localeCompare : string -> string -> Z)
    (toLowerCase : string -> string)
    (response : AIResponse) (store : StoreReplies) (w : World) :
  integrity w ->
  (∀ d roleId permissionId,
      linkInserted store = Success d ->
      remoteCalls (snd (executeAction localeCompare toLowerCase response store w))
      = remoteCalls w ++ [InsertLink roleId permissionId] ->
      role_id d = roleId ∧ permission_id d = permissionId) ->
  integrity (snd (executeAction localeCompare toLowerCase response store w)).
Proof.
  intros Hw. cases_of_action response.
  - (* create_permission *)
    intros _. destruct (present _) as [name|]; [|done].
    pose proof (perform_keeps_integrity localeCompare
             (CreatePermission name (data response ≫= d_description)
                (permissionInserted store)) w Hw) as H.
    cbn [perform echoes] in H. revert H. run.
    destruct (permissionInserted store); run; auto.
  - (* create_role *)
    intros _. destruct (present _) as [name|]; [|done].
    pose proof (perform_keeps_integrity localeCompare
             (CreateRole name (data response ≫= d_description)
                (roleInserted store)) w Hw) as H.
    cbn [perform echoes] in H. revert H. run.
    destruct (roleInserted store); run; auto.
  - (* assign_permission *)
    destruct (present (data response ≫= d_role_name)) as [role_name|]; [|by intros].
    destruct (present (data response ≫= d_permission_name)) as [permission_name|];
      [|by intros].
    run.
    destruct (find _ (roles w)) as [role|] eqn:Erole; [|by intros].
    destruct (find _ (permissions w)) as [permission|] eqn:Eperm; [|by intros].
    apply find_some_elem in Erole as [Hrole _].
    apply find_some_elem in Eperm as [Hperm _].
    intros Hecho.
    pose proof (perform_keeps_integrity localeCompare
             (AssignPermissionToRole (r_id role) (p_id permission)
                (linkInserted store)) w Hw) as H.
    cbn [perform echoes] in H. revert H Hecho. run.
    destruct (linkInserted store) as [d|e]; run.
    + intros H Hecho. apply H.
      destruct (Hecho d (r_id role) (p_id permission) eq_refl) as [-> ->];
        [by logs|].
      repeat split; apply list_elem_of_fmap; eauto.
    + destruct (includes _ _); run; auto.
  - (* remove_permission *)
    intros _.
    destruct (present (data response ≫= d_role_name)) as [role_name|]; [|done].
    destruct (present (data response ≫= d_permission_name)) as [permission_name|];
      [|done].
    run.
    destruct (find _ (roles w)) as [role|]; [|done].
    destruct (find _ (permissions w)) as [permission|]; [|done].
    pose proof (perform_keeps_integrity localeCompare
             (RemovePermissionFromRole (r_id role) (p_id permission)
                (linkDeleted store)) w Hw) as H.
    cbn [perform echoes] in H. revert H. run.
    destruct (linkDeleted store) as [[]|e]; run; auto.
  - done.
  - done.
Qed.

(** * The forms and the chat *)

(** ** Trimming *)

Lemma trimStart_empty (s : string) : trimStart s = EmptyString ↔ blank s.
Proof.
  unfold blank. induction s as [|c s IH]; cbn; [by split; [constructor|]|].
  rewrite Forall_cons. destruct (isSpace c); [rewrite IH; tauto|].
  split; [discriminate | intros [? _]; discriminate].
Qed.

Lemma trimStart_head (s : string) :
  trimStart s = EmptyString
  ∨ ∃ c s', trimStart s = String c s' ∧ isSpace c = false.
Proof.
  induction s as [|c s IH]; cbn; [by left|].
  destruct (isSpace c) eqn:E; [done|]. right. eauto.
Qed.

Lemma trimEnd_head (c : ascii) (s : string) :
  isSpace c = false -> trimEnd (String c s) ≠ EmptyString.
Proof. intros E. cbn. rewrite E. by destruct (trimEnd s). Qed.

Lemma trim_empty (s : string) : trim s = EmptyString ↔ blank s.
Proof.
  split; [|apply trim_blank].
  unfold trim. intros E. apply trimStart_empty.
  destruct (trimStart_head s) as [H|(c & s' & H & Hc)]; [done|].
  rewrite H in E. by apply trimEnd_head in E.
Qed.

Lemma truthy_trim (s : string) : truthy (Some (trim s)) = true ↔ ¬ blank s.
Proof.
  rewrite <- trim_empty. unfold truthy. destruct (trim s); split; done.
Qed.

Lemma present_not_empty (s : option string) : present s ≠ Some EmptyString.
Proof. by destruct s as [[|c s]|]. Qed.

(** ** The forms of the permissions page and of the roles page *)

(** X14. A form whose name and description are in the ASCII range and
    whose name is not blank submits the trimmed name, which is not empty,
    and the trimmed description, left out when nothing remains of it: with no row selected the world becomes what [createPermission]
    (or [createRole]) makes of it, with a row selected what
    [updatePermission] (or [updateRole]) of the id of the row makes of
    it. *)
Theorem forms_submit_trimmed (localeCompare : string -> string -> Z)
    (formData : FormData) (w : World) :
  isAscii (f_name formData) -> isAscii (f_description formData) ->
  ¬ blank (f_name formData) ->
  let name := trim (f_name formData) in
  let description := present (Some (trim (f_description formData))) in
  name ≠ EmptyString
  ∧ description ≠ Some EmptyString
  ∧ (blank (f_description formData) -> description = None)
  ∧ (∀ reply,
        snd (handleSubmit localeCompare formData None reply w)
        = snd (createPermission localeCompare name description reply w))
  ∧ (∀ reply selected,
        snd (handleSubmit localeCompare formData (Some selected) reply w)
        = snd (updatePermission localeCompare (p_id selected) name description reply w))
  ∧ (∀ reply,
        snd (RolesPage.handleSubmit localeCompare formData None reply w)
        = snd (createRole localeCompare name description reply w))
  ∧ (∀ reply selected,
        snd (RolesPage.handleSubmit localeCompare formData (Some selected) reply w)
        = snd (updateRole localeCompare (r_id selected) name description reply w)).
Proof.
  intros _ _ Hname name description.
  assert (Ht : truthy (Some name) = true) by (by apply truthy_trim).
  subst name description.
  split; [by rewrite trim_empty|]. split; [apply present_not_empty|].
  split; [intros Hb; by rewrite (trim_blank _ Hb)|].
  unfold handleSubmit, RolesPage.handleSubmit. rewrite Ht. cbn [negb].
  repeat split; intros; unfold mbind, M_bind, mret, M_ret;
    by match goal with |- context [let '(_, _) := ?x in _] => destruct x end.
Qed.

(** ** Sending a command to the assistant *)

Lemma send_guard (chat : AssistantPage.Chat) :
  negb (truthy (Some (trim (AssistantPage.input chat)))) || AssistantPage.processing chat
  = false
  ↔ ¬ blank (AssistantPage.input chat) ∧ AssistantPage.processing chat = false.
Proof.
  rewrite orb_false_iff, negb_false_iff, truthy_trim. tauto.
Qed.

(** X15. [handleSend] does nothing at all when the input is empty or white
    space only, or while an earlier command is being processed: no message
    is added, the function is not invoked, and the world is untouched. *)
Theorem send_is_guarded (localeCompare : string -> string -> Z)
    (toLowerCase : string -> string)
    (invoke : PostgrestResponse AIResponse) (store : StoreReplies)
    (sent answered : AssistantPage.Instant) (chat : AssistantPage.Chat) (w : World) :
  blank (AssistantPage.input chat) ∨ AssistantPage.processing chat = true ->
  AssistantPage.handleSend localeCompare toLowerCase invoke store sent answered chat w = (chat, w).
Proof.
  intros Hguard. unfold AssistantPage.handleSend.
  destruct (negb (truthy (Some (trim (AssistantPage.input chat))))
            || AssistantPage.processing chat) eqn:E; [done|].
  apply send_guard in E as [Hb Hp]. destruct Hguard; [done | congruence].
Qed.

(** X16. A command in the ASCII range that passes the guard adds exactly
    two messages, the trimmed input as the user's and one answer of the
    assistant, invokes the function once with the trimmed input, clears the
    input and ends with [processing] reset.  The answer is marked
    successful, or it is marked failed and the three collections are as
    they were. *)
Theorem send_adds_question_and_answer (localeCompare : string -> string -> Z)
    (toLowerCase : string -> string)
    (invoke : PostgrestResponse AIResponse) (store : StoreReplies)
    (sent answered : AssistantPage.Instant) (chat : AssistantPage.Chat) (w : World) :
  isAscii (AssistantPage.input chat) ->
  ¬ blank (AssistantPage.input chat) -> AssistantPage.processing chat = false ->
  let r := AssistantPage.handleSend localeCompare toLowerCase invoke store sent answered chat w in
  ∃ answer,
    AssistantPage.messages (fst r)
    = AssistantPage.messages chat
      ++ [ {| AssistantPage.m_id := AssistantPage.now sent;
              AssistantPage.m_role := AssistantPage.user;
              AssistantPage.m_content := trim (AssistantPage.input chat);
              AssistantPage.m_action := None;
              AssistantPage.m_success := None;
              AssistantPage.m_timestamp := AssistantPage.date sent |};
           answer ]
    ∧ AssistantPage.m_role answer = AssistantPage.assistant
    ∧ AssistantPage.invoked (fst r)
      = AssistantPage.invoked chat ++ [trim (AssistantPage.input chat)]
    ∧ AssistantPage.input (fst r) = EmptyString
    ∧ AssistantPage.processing (fst r) = false
    ∧ (AssistantPage.m_success answer = Some true
       ∨ (AssistantPage.m_success answer = Some false ∧ mirror (snd r) = mirror w)).
Proof.
  intros _ Hb Hp r. subst r. unfold AssistantPage.handleSend.
  rewrite (proj2 (send_guard chat) (conj Hb Hp)).
  destruct invoke as [aiResponse|error].
  - destruct (present (ai_error aiResponse)) as [err|].
    + eexists. cbn. rewrite <- app_assoc. repeat split. by right.
    + unfold mbind, M_bind, mret, M_ret.
      destruct (executeAction localeCompare toLowerCase aiResponse store w) as [result w'] eqn:E.
      eexists. cbn. rewrite <- app_assoc. repeat split.
      destruct (success result) eqn:Es; [by left|right]. split; [done|].
      pose proof (executeAction_outcome localeCompare toLowerCase aiResponse store w) as [H _].
      rewrite E in H. by apply H.
  - run. eexists. cbn. rewrite <- app_assoc. repeat split. by right.
Qed.

(** X17. For a command in the ASCII range that passes the guard: when the
    function answers with an [error] text, no action is executed, whatever
    action the answer names: the world is untouched and the assistant's
    message is that text, marked failed and without action.  When the
    invocation itself fails, the collections are untouched, the error goes
    to the console, the toast [AI Error] is raised and the assistant
    apologises. *)
Theorem send_reports_errors (localeCompare : string -> string -> Z)
    (toLowerCase : string -> string)
    (store : StoreReplies)
    (sent answered : AssistantPage.Instant) (chat : AssistantPage.Chat) (w : World) :
  isAscii (AssistantPage.input chat) ->
  ¬ blank (AssistantPage.input chat) -> AssistantPage.processing chat = false ->
  let failedAnswer (content : string) :=
    {| AssistantPage.m_id := AssistantPage.now answered;
       AssistantPage.m_role := AssistantPage.assistant;
       AssistantPage.m_content := content;
       AssistantPage.m_action := None;
       AssistantPage.m_success := Some false;
       AssistantPage.m_timestamp := AssistantPage.date answered |} in
  (∀ aiResponse err,
      present (ai_error aiResponse) = Some err ->
      let r := AssistantPage.handleSend localeCompare toLowerCase (Success aiResponse) store
                 sent answered chat w in
      snd r = w
      ∧ last (AssistantPage.messages (fst r)) = Some (failedAnswer err))
  ∧ (∀ error,
        let r := AssistantPage.handleSend localeCompare toLowerCase (Failure error) store
                   sent answered chat w in
        mirror (snd r) = mirror w
        ∧ log (snd r)
          = log w ++ [ConsoleError "AI error:" error;
                      Toasted {| title := "AI Error";
                                 description :=
                                   "Failed to process your request. Please try again.";
                                 variant := Destructive |}]
        ∧ last (AssistantPage.messages (fst r))
          = Some (failedAnswer AssistantPage.apology)).
Proof.
  intros _ Hb Hp failedAnswer. split.
  - intros aiResponse err Herr r. subst r. unfold AssistantPage.handleSend.
    rewrite (proj2 (send_guard chat) (conj Hb Hp)), Herr. cbn.
    split; [done|]. apply last_snoc.
  - intros error r. subst r. unfold AssistantPage.handleSend.
    rewrite (proj2 (send_guard chat) (conj Hb Hp)). run. cbn.
    split; [done|]. split; [by rewrite <- app_assoc|]. apply last_snoc.
Qed.

(** * Search boxes and the assignment toggle *)












(** ** Toggling a permission of the selected role *)

Lemma includesId_listed (w : World) (roleId permissionId : string) :
  includesId (map p_id (getPermissionsForRole w roleId)) permissionId = true
  ↔ ∃ p, p ∈ getPermissionsForRole w roleId ∧ p_id p = permissionId.
Proof.
  rewrite includesId_spec, list_elem_of_fmap. split; intros (p & H1 & H2); eauto.
Qed.

(** X19. [handleTogglePermission] does nothing when no role is selected or
    while a toggle is being processed.  Otherwise it sends exactly one
    query about the selected role and the permission: the removal of the
    link when [getPermissionsForRole] lists a permission with that id, the
    insert of the link when it does not. *)
Theorem toggle_sends_one_query (selectedRole : option Role) (processing : option string)
    (permissionId : string) (store : StoreReplies) (w : World) :
  let toggled :=
    AssignmentsPage.handleTogglePermission selectedRole processing permissionId store w in
  (selectedRole = None ∨ truthy processing = true -> toggled = (tt, w))
  ∧ (∀ role, selectedRole = Some role -> truthy processing = false ->
       ((∃ p, p ∈ getPermissionsForRole w (r_id role) ∧ p_id p = permissionId) ->
        remoteCalls (snd toggled)
        = remoteCalls w ++ [DeleteLink (r_id role) permissionId])
       ∧ ((∀ p, p ∈ getPermissionsForRole w (r_id role) -> p_id p ≠ permissionId) ->
          remoteCalls (snd toggled)
          = remoteCalls w ++ [InsertLink (r_id role) permissionId])).
Proof.
  cbv zeta. unfold AssignmentsPage.handleTogglePermission. split.
  - intros [->| ->]; [done|]. by destruct selectedRole.
  - intros role -> ->. unfold getWorld. run. split.
    + intros Hlisted. rewrite (proj2 (includesId_listed w (r_id role) permissionId) Hlisted).
      destruct (linkDeleted store) as [[]|e]; run; by logs.
    + intros Hnot.
      destruct (includesId _ permissionId) eqn:E.
      { apply includesId_listed in E as (p & Hp & Hid). by apply Hnot in Hp. }
      destruct (linkInserted store) as [d|e]; run;
        [|destruct (includes _ _); run]; by logs.
Qed.

(** X20. Ticking and unticking: for a selected role and a permission of
    the mirror that the role does not hold, with a store that accepts both
    queries and returns the link of the two ids, two toggles in a row give
    back the three collections as they were. *)
Theorem toggle_twice_restores (role : Role) (permissionId : string)
    (data : RolePermission) (store : StoreReplies) (w : World) :
  linkInserted store = Success data -> linkDeleted store = Success () ->
  role_id data = r_id role -> permission_id data = permissionId ->
  permissionId ∈ p_id <$> permissions w ->
  linksOf (r_id role) permissionId (rolePermissions w) = [] ->
  let toggle w :=
    snd (AssignmentsPage.handleTogglePermission (Some role) None permissionId store w) in
  mirror (toggle w) = (permissions w, roles w, rolePermissions w ++ [data])
  ∧ mirror (toggle (toggle w)) = mirror w.
Proof.
  intros Hins Hdel Hr Hp Hin Hnone toggle.
  assert (Hfirst : toggle w
                   = snd (assignPermissionToRole (r_id role) permissionId (Success data) w)).
  { subst toggle. unfold AssignmentsPage.handleTogglePermission, getWorld.
    cbn [truthy]. unfold mbind at 1, M_bind at 1.
    destruct (includesId _ permissionId) eqn:E.
    - apply includesId_listed in E as (p & Hpl & Hid).
      rewrite getPermissionsForRole_filter in Hpl.
      apply list_elem_of_filter in Hpl as [Hg _].
      apply Exists_exists in Hg as (rp & Hrp & Hrr & Hpp).
      apply (proj1 (linksOf_nil _ _ _) Hnone) in Hrp. exfalso. apply Hrp.
      split; congruence.
    - rewrite Hins. unfold mbind, M_bind, mret, M_ret.
      by destruct (assignPermissionToRole _ _ _ w). }
  destruct (assign_links (r_id role) permissionId data w) as (Aps & Ars & Arps).
  rewrite <- Hfirst in Aps, Ars, Arps.
  assert (Hsecond : toggle (toggle w)
                    = snd (removePermissionFromRole (r_id role) permissionId (Success ())
                             (toggle w))).
  { unfold toggle at 1. unfold AssignmentsPage.handleTogglePermission, getWorld.
    cbn [truthy]. unfold mbind at 1, M_bind at 1.
    destruct (includesId _ permissionId) eqn:E.
    - rewrite Hdel. unfold mbind, M_bind, mret, M_ret.
      by destruct (removePermissionFromRole _ _ _ (toggle w)).
    - exfalso. apply not_true_iff_false in E. apply E, includesId_listed.
      apply list_elem_of_fmap in Hin as (p & Hid & Hpin). exists p. split; [|done].
      rewrite getPermissionsForRole_filter, Aps, Arps.
      apply list_elem_of_filter. split; [|done].
      apply grants_app. right. split; congruence. }
  split; [unfold mirror; by rewrite Aps, Ars, Arps|].
  destruct (remove_links (r_id role) permissionId (toggle w)) as (Rps & Rrs & Rrps).
  rewrite <- Hsecond in Rps, Rrs, Rrps. unfold mirror.
  rewrite Rps, Rrs, Rrps, Aps, Ars, Arps. f_equal.
  rewrite filter_app, filter_cons_False, filter_nil, app_nil_r by tauto.
  apply filter_all. by apply linksOf_nil.
Qed.

(** * The edge function *)

(** ** The braces of the model's answer *)

Lemma occurs_append (c : ascii) (a b : string) :
  occurs c (a +:+ b) ↔ occurs c a ∨ occurs c b.
Proof.
  unfold occurs. induction a as [|x a IH]; simpl; [tauto|]. rewrite IH. tauto.
Qed.

Lemma fromFirstBrace_none (s : string) :
  RbacAi.fromFirstBrace s = None ↔ ¬ occurs "{" s.
Proof.
  unfold occurs. induction s as [|c s IH]; cbn; [tauto|].
  destruct (Ascii.eqb_spec c "{") as [->|Hne]; [split; [done | tauto]|].
  rewrite IH. tauto.
Qed.

Lemma fromFirstBrace_some (s t : string) :
  RbacAi.fromFirstBrace s = Some t ->
  ∃ pre rest, s = pre +:+ t ∧ t = String "{" rest ∧ ¬ occurs "{" pre.
Proof.
  induction s as [|c s IH]; cbn; [done|].
  destruct (Ascii.eqb_spec c "{") as [->|Hne].
  - intros [= <-]. exists EmptyString, s. repeat split. by intros [].
  - intros Ht. destruct (IH Ht) as (pre & rest & -> & -> & Hpre).
    exists (String c pre), rest. repeat split.
    unfold occurs in *. cbn. intros [?|?]; [congruence | done].
Qed.

Lemma upToLastBrace_none (s : string) :
  RbacAi.upToLastBrace s = None ↔ ¬ occurs "}" s.
Proof.
  unfold occurs. induction s as [|c s IH]; cbn; [tauto|].
  destruct (RbacAi.upToLastBrace s) as [t|].
  - split; [done|]. intros Hno. exfalso. destruct IH as [_ IH].
    assert (Some t = None) by (apply IH; tauto). done.
  - destruct (Ascii.eqb_spec c "}") as [->|Hne]; [split; [done | tauto]|].
    split; [|done]. intros _ [?|?]; [congruence|]. by apply IH.
Qed.

Lemma upToLastBrace_some (s t : string) :
  RbacAi.upToLastBrace s = Some t ->
  ∃ init post, s = t +:+ post ∧ t = init +:+ "}" ∧ ¬ occurs "}" post.
Proof.
  revert t. induction s as [|c s IH]; cbn; [done|]. intros t.
  destruct (RbacAi.upToLastBrace s) as [u|] eqn:E.
  - intros [= <-]. destruct (IH u eq_refl) as (init & post & -> & -> & Hpost).
    exists (String c init), post. by repeat split.
  - destruct (Ascii.eqb_spec c "}") as [->|Hne]; [|done].
    intros [= <-]. exists EmptyString, s. repeat split.
    by apply upToLastBrace_none.
Qed.

Lemma jsonMatch_none (s : string) :
  RbacAi.jsonMatch s = None ->
  ∀ pre inner post, s ≠ pre +:+ "{" +:+ inner +:+ "}" +:+ post.
Proof.
  unfold RbacAi.jsonMatch.
  induction s as [|c s IH]; intros Hnone pre inner post.
  - by destruct pre.
  - cbn [RbacAi.fromFirstBrace] in Hnone. destruct (Ascii.eqb c "{") eqn:Ec.
    + cbn [mbind option_bind] in Hnone.
      intros Heq. apply upToLastBrace_none in Hnone. apply Hnone.
      rewrite Heq, !occurs_append. right; right; right; left. by left.
    + apply Ascii.eqb_neq in Ec.
      destruct pre as [|x pre];
        [intros Heq; simpl in Heq; injection Heq as Hc _; congruence|].
      simpl. intros [= -> Heq]. by apply (IH Hnone pre inner post).
Qed.

(** X21. The braces the function cuts out of the answer of the model: when
    [jsonMatch] finds a match, the answer is the match between a text
    without opening brace and a text without closing brace, and the match
    starts with an opening and ends with a closing brace; when it finds
    none, the answer holds no opening brace followed, anywhere later, by a
    closing brace. *)
Theorem jsonMatch_spans_the_braces (content : string) :
  match RbacAi.jsonMatch content with
  | Some j =>
      ∃ pre inner post,
        content = pre +:+ j +:+ post
        ∧ j = "{" +:+ inner +:+ "}"
        ∧ ¬ occurs "{" pre ∧ ¬ occurs "}" post
  | None =>
      ∀ pre inner post, content ≠ pre +:+ "{" +:+ inner +:+ "}" +:+ post
  end.
Proof.
  destruct (RbacAi.jsonMatch content) as [j|] eqn:E; [|by apply jsonMatch_none].
  unfold RbacAi.jsonMatch in E.
  destruct (RbacAi.fromFirstBrace content) as [t|] eqn:Et; [|done]. cbn in E.
  apply fromFirstBrace_some in Et as (pre & rest & -> & Ht & Hpre).
  apply upToLastBrace_some in E as (init & post & Hj & -> & Hpost).
  destruct init as [|x init].
  - rewrite Ht in Hj. simpl in Hj. injection Hj as Hc _. discriminate Hc.
  - rewrite Ht in Hj. simpl in Hj. injection Hj as <- Hrest.
    exists pre, init, post. rewrite Ht, Hrest. by repeat split.
Qed.

(** ** The handler *)

Section ServeProperties.

Variable Json : Type.
Variable jsonParse : string -> option Json.

(** X22. Whatever the request, the environment and the gateway: the
    handler answers 200, 402, 429 or 500, always with the CORS headers
    first; it sends at most one request to the gateway, and only with the
    key of the environment and the message of the request; a preflight
    ([OPTIONS]) or a missing or empty key sends none; 402 and 429 are the
    status of the gateway handed on; and a 500 always carries an error
    message with the action [error]. *)
Theorem serve_answers (method : string) (reqJson : RbacAi.Try string)
    (apiKey : option string) (fetched : RbacAi.Try RbacAi.Gateway) :
  let calls := fst (RbacAi.serve Json jsonParse method reqJson apiKey fetched) in
  let response := snd (RbacAi.serve Json jsonParse method reqJson apiKey fetched) in
  RbacAi.code response ∈ [200; 402; 429; 500]
  ∧ (∃ more, RbacAi.headers response = RbacAi.corsHeaders ++ more)
  ∧ (calls = []
     ∨ ∃ key msg, present apiKey = Some key ∧ reqJson = RbacAi.Returned msg
                  ∧ calls = [ {| RbacAi.authorization := "Bearer " +:+ key;
                                 RbacAi.userContent := msg |} ])
  ∧ (method = "OPTIONS" ->
     calls = [] ∧ response = {| RbacAi.code := 200; RbacAi.headers := RbacAi.corsHeaders;
                                RbacAi.body := RbacAi.NoBody |})
  ∧ (present apiKey = None -> calls = [])
  ∧ (RbacAi.code response = 402 ∨ RbacAi.code response = 429 ->
     ∃ g, fetched = RbacAi.Returned g ∧ RbacAi.status g = RbacAi.code response)
  ∧ (RbacAi.code response = 500 -> ∃ e, RbacAi.body response = RbacAi.ErrorAction e).
Proof.
  cbv zeta. unfold RbacAi.serve.
  destruct (String.eqb_spec method "OPTIONS") as [->|Hm].
  { cbn. repeat split; try (intros [?|?]; discriminate); try discriminate.
    - apply list_elem_of_In. simpl. tauto.
    - by exists [].
    - by left. }
  destruct reqJson as [msg|e];
    [destruct (present apiKey) as [key|] eqn:Ek;
     [destruct fetched as [g|e];
      [destruct (negb (RbacAi.ok g)) eqn:Eok;
       [destruct (RbacAi.text g) as [errorText|e];
        [destruct (Nat.eqb_spec (RbacAi.status g) 429);
         [|destruct (Nat.eqb_spec (RbacAi.status g) 402)]|]
       |destruct (RbacAi.content g) as [c|e]]|]|]|];
    cbn [fst snd RbacAi.code RbacAi.headers RbacAi.body RbacAi.failure].
  all: split; [apply list_elem_of_In; simpl; tauto|].
  all: split; [unfold RbacAi.jsonHeaders; eauto|].
  all: split; [first [ by left | right; by eauto ]|].
  all: split; [done|].
  all: split; [done|].
  all: split; [intros [?|?]; try discriminate; eauto|].
  all: try discriminate; eauto.
Qed.

(** X23. When the gateway answers with success and a decodable body, the
    handler answers 200 and never an error: the body is the value parsed
    from the text between the first opening and the last closing brace of
    the model's text, or, when there is no such text, no text at all, or
    the text does not parse, an [info] that carries the model's text
    unchanged. *)
Theorem serve_passes_the_model_on (method msg key : string) (apiKey : option string)
    (g : RbacAi.Gateway) (c : option string) :
  method ≠ "OPTIONS" -> present apiKey = Some key ->
  RbacAi.ok g = true -> RbacAi.content g = RbacAi.Returned c ->
  let response :=
    snd (RbacAi.serve Json jsonParse method (RbacAi.Returned msg) apiKey
           (RbacAi.Returned g)) in
  RbacAi.code response = 200
  ∧ RbacAi.headers response = RbacAi.jsonHeaders
  ∧ match RbacAi.body response with
    | RbacAi.Parsed v =>
        ∃ text j, c = Some text ∧ RbacAi.jsonMatch text = Some j ∧ jsonParse j = Some v
    | RbacAi.Info m =>
        m = c ∧ ∀ text j, c = Some text -> RbacAi.jsonMatch text = Some j ->
                          jsonParse j = None
    | _ => False
    end.
Proof.
  intros Hm Hk Hok Hc response. subst response. unfold RbacAi.serve.
  apply String.eqb_neq in Hm. rewrite Hm, Hk, Hok, Hc.
  cbn [negb snd RbacAi.code RbacAi.headers RbacAi.body]. split; [done|]. split; [done|].
  unfold RbacAi.parsedResponse.
  destruct c as [text|]; [|split; [done | intros; discriminate]].
  destruct (RbacAi.jsonMatch text) as [j|] eqn:Ej;
    [destruct (jsonParse j) as [v|] eqn:Ev|].
  - eauto.
  - split; [done|]. intros ? ? [= <-] ?. congruence.
  - split; [done|]. intros ? ? [= <-] ?. congruence.
Qed.

End ServeProperties.

(** * The further statements at sample inputs *)

Lemma populated_integrity : integrity populated.
Proof.
  intros rp Hin. apply list_elem_of_singleton in Hin as ->.
  split; apply list_elem_of_In; simpl; tauto.
Qed.

Ltac ascii := repeat (constructor; [reflexivity|]); constructor.

Lemma canViewForm_ascii :
  isAscii (f_name canViewForm) ∧ isAscii (f_description canViewForm).
Proof. split; ascii. Qed.

Lemma typing_ascii : isAscii (AssistantPage.input typing).
Proof. ascii. Qed.

Lemma canViewForm_not_blank : ¬ blank (f_name canViewForm).
Proof. intros Hb. apply Forall_cons in Hb as [Hc _]. discriminate Hc. Qed.

Lemma typing_not_blank : ¬ blank (AssistantPage.input typing).
Proof. intros Hb. apply Forall_cons in Hb as [Hc _]. discriminate Hc. Qed.

Lemma assignment_shows_in_queries_witness :
  role_id adminCanDelete = "r2" ∧ permission_id adminCanDelete = "p1"
  ∧ canDelete ∈ getPermissionsForRole
       (snd (assignPermissionToRole "r2" "p1" (Success adminCanDelete) populated)) "r2".
Proof.
  split; [reflexivity|]. split; [reflexivity|].
  apply (assignment_shows_in_queries "r2" "p1" adminCanDelete populated eq_refl eq_refl).
  right. split; [left | reflexivity].
Defined.

Lemma assign_then_remove_restores_witness :
  linksOf "r2" "p1" (rolePermissions populated) = []
  ∧ mirror (snd (removePermissionFromRole "r2" "p1" (Success ())
                   (snd (assignPermissionToRole "r2" "p1" (Success adminCanDelete)
                           populated))))
    = mirror populated.
Proof.
  split; [reflexivity|].
  apply (assign_then_remove_restores "r2" "p1" adminCanDelete populated);
    reflexivity.
Defined.

Lemma second_link_is_invisible_witness :
  linksOf "r1" "p1" (rolePermissions populated) = [editorCanDelete]
  ∧ getPermissionsForRole
      (snd (assignPermissionToRole "r1" "p1" (Success editorCanDeleteAgain) populated))
      "r1"
    = getPermissionsForRole populated "r1".
Proof.
  split; [reflexivity|].
  apply (second_link_is_invisible "r1" "p1" editorCanDeleteAgain populated);
    [reflexivity | reflexivity | discriminate].
Defined.

Lemma integrity_kept_witness :
  integrity populated
  ∧ echoes (AssignPermissionToRole "r2" "p1" (Success adminCanDelete)) populated
  ∧ integrity (snd (perform codeUnitCompare
                      (AssignPermissionToRole "r2" "p1" (Success adminCanDelete))
                      populated)).
Proof.
  assert (Hecho : echoes (AssignPermissionToRole "r2" "p1" (Success adminCanDelete))
                         populated).
  { repeat split; apply list_elem_of_In; simpl; tauto. }
  split; [apply populated_integrity|]. split; [exact Hecho|].
  apply (integrity_kept codeUnitCompare _ populated populated_integrity Hecho).
Defined.

Lemma create_action_reports_store_witness :
  present (data createCanView ≫= d_name) = Some "can_view"
  ∧ success (fst (executeAction codeUnitCompare toLowerCase createCanView accepting populated)) = true
  ∧ success (fst (executeAction codeUnitCompare toLowerCase createCanView refusing populated)) = false.
Proof.
  split; [reflexivity|]. split.
  - destruct (create_action_reports_store codeUnitCompare toLowerCase createCanView accepting
                populated "can_view" eq_refl) as [H _].
    destruct (H eq_refl) as (_ & Hflag & _). rewrite Hflag. reflexivity.
  - destruct (create_action_reports_store codeUnitCompare toLowerCase createCanView refusing
                populated "can_view" eq_refl) as [H _].
    destruct (H eq_refl) as (_ & Hflag & _). rewrite Hflag. reflexivity.
Defined.

Lemma names_count_up_to_case_witness :
  toLowerCase "admin" = toLowerCase "ADMIN"
  ∧ toLowerCase "can_delete" = toLowerCase "CAN_DELETE"
  ∧ snd (executeAction codeUnitCompare toLowerCase assignAdmin accepting populated)
    = snd (executeAction codeUnitCompare toLowerCase assignAdminShouting accepting populated).
Proof.
  split; [reflexivity|]. split; [reflexivity|].
  apply (names_count_up_to_case codeUnitCompare toLowerCase assignAdmin assignAdminShouting
           accepting populated "admin" "ADMIN" "can_delete" "CAN_DELETE");
    first [ reflexivity | left; reflexivity ].
Defined.

Lemma dispatch_keeps_integrity_witness :
  integrity populated
  ∧ rolePermissions (snd (executeAction codeUnitCompare toLowerCase assignAdmin accepting populated))
    = [editorCanDelete; adminCanDelete]
  ∧ integrity (snd (executeAction codeUnitCompare toLowerCase assignAdmin accepting populated)).
Proof.
  split; [apply populated_integrity|]. split; [reflexivity|].
  apply (dispatch_keeps_integrity codeUnitCompare toLowerCase assignAdmin accepting populated
           populated_integrity).
  intros d roleId permissionId [= <-] [= <- <-]. by split.
Defined.

Lemma forms_submit_trimmed_witness :
  (isAscii (f_name canViewForm) ∧ isAscii (f_description canViewForm))
  ∧ trim (f_name canViewForm) = "can_view"
  ∧ remoteCalls (snd (handleSubmit codeUnitCompare canViewForm None (Success canView)
                        populated))
    = [Insert "permissions" "can_view" None].
Proof.
  split; [apply canViewForm_ascii|]. split; [reflexivity|].
  destruct (forms_submit_trimmed codeUnitCompare canViewForm populated
              (proj1 canViewForm_ascii) (proj2 canViewForm_ascii)
              canViewForm_not_blank) as (_ & _ & _ & Hcreate & _).
  rewrite Hcreate. reflexivity.
Defined.

Lemma send_is_guarded_witness :
  (blank (AssistantPage.input idle) ∨ AssistantPage.processing idle = true)
  ∧ AssistantPage.handleSend codeUnitCompare toLowerCase (Success createCanView) accepting
      noon justAfterNoon idle populated
    = (idle, populated).
Proof.
  assert (Hguard : blank (AssistantPage.input idle) ∨ AssistantPage.processing idle = true)
    by (left; repeat constructor).
  split; [exact Hguard|].
  apply (send_is_guarded codeUnitCompare toLowerCase (Success createCanView) accepting
           noon justAfterNoon idle populated Hguard).
Defined.

Lemma send_adds_question_and_answer_witness :
  isAscii (AssistantPage.input typing)
  ∧ AssistantPage.processing typing = false
  ∧ ∃ answer,
      AssistantPage.messages
        (fst (AssistantPage.handleSend codeUnitCompare toLowerCase (Success createCanView) accepting
                noon justAfterNoon typing populated))
      = [ {| AssistantPage.m_id := "1704110400000";
             AssistantPage.m_role := AssistantPage.user;
             AssistantPage.m_content := "create can_view";
             AssistantPage.m_action := None;
             AssistantPage.m_success := None;
             AssistantPage.m_timestamp := "2024-01-01T12:00:00Z" |};
          answer ].
Proof.
  split; [apply typing_ascii|]. split; [reflexivity|].
  destruct (send_adds_question_and_answer codeUnitCompare toLowerCase
              (Success createCanView) accepting noon justAfterNoon typing populated
              typing_ascii typing_not_blank eq_refl)
    as (answer & Hmessages & _).
  exists answer. exact Hmessages.
Defined.

Lemma send_reports_errors_witness :
  isAscii (AssistantPage.input typing)
  ∧ present (ai_error gatewayDown) = Some "AI gateway error: 503"
  ∧ snd (AssistantPage.handleSend codeUnitCompare toLowerCase (Success gatewayDown) accepting
           noon justAfterNoon typing populated)
    = populated.
Proof.
  split; [apply typing_ascii|]. split; [reflexivity|].
  destruct (send_reports_errors codeUnitCompare toLowerCase accepting noon justAfterNoon
              typing populated typing_ascii typing_not_blank eq_refl) as [Hfunction _].
  apply (Hfunction gatewayDown "AI gateway error: 503" eq_refl).
Defined.

Lemma toggle_twice_restores_witness :
  linksOf (r_id admin) "p1" (rolePermissions populated) = []
  ∧ mirror
      (snd (AssignmentsPage.handleTogglePermission (Some admin) None "p1" accepting
              (snd (AssignmentsPage.handleTogglePermission (Some admin) None "p1"
                      accepting populated))))
    = mirror populated.
Proof.
  split; [reflexivity|].
  apply (toggle_twice_restores admin "p1" adminCanDelete accepting populated);
    try reflexivity.
  apply list_elem_of_In. simpl. tauto.
Defined.

Lemma serve_passes_the_model_on_witness :
  RbacAi.ok chatty = true
  ∧ RbacAi.code
      (snd (RbacAi.serve string Some "POST" (RbacAi.Returned "create can_view")
              (Some "key") (RbacAi.Returned chatty)))
    = 200
  ∧ RbacAi.body
      (snd (RbacAi.serve string Some "POST" (RbacAi.Returned "create can_view")
              (Some "key") (RbacAi.Returned chatty)))
    = RbacAi.Parsed "{x}".
Proof.
  split; [reflexivity|]. split; [|reflexivity].
  apply (serve_passes_the_model_on string Some "POST" "create can_view" "key"
           (Some "key") chatty (Some "Sure: {x} done"));
    first [ reflexivity | discriminate ].
Defined.
